(** * fleet-server: enrollment orchestrator and policy-leadership leases

    A shallow embedding of

    - [internal/pkg/dl/policies_leader.go]: [TakePolicyLeadership] and
      [ReleasePolicyLeadership];
    - the enrollment handler of package [fleet]: [handleEnroll], [_enroll],
      [updateLocalMetaAgentId], [createFleetAgent], [generateAccessApiKey],
      [fetchEnrollmentKeyRecord] and [decodeEnrollRequest].

    Go functions that talk to a collaborator (the bulker, the cache, the
    limiter, the clock, the UUID generator, the API-key issuer) become
    programs over a signature of calls; a handler answers the calls and
    threads its own state, and running a program records the calls it made
    together with their answers.  Pure library functions whose code is not
    part of the sources (the JSON codecs of the structs of package [model],
    time formatting, token rendering) are fields of the class [Runtime]. *)

From Stdlib Require Import ZArith String Ascii PrimFloat DecimalString.
From Stdlib.Strings Require Import Byte.
From stdpp Require Import base strings gmap list sorting.

Set Warnings "-register-all".
Set Default Proof Using "Type".

(* ================================================================== *)
(** ** Go values *)
(* ================================================================== *)

(** [[]byte]. A slice that may be [nil] is an [option bytes]. *)
Definition bytes : Type := list byte.

Definition bytes_of (s : string) : bytes := list_byte_of_string s.

(** JSON texts are written with an apostrophe where the text has a
    quotation mark. *)
Fixpoint requote (s : string) : string :=
  match s with
  | EmptyString => EmptyString
  | String c s' =>
      String (if Ascii.eqb c "'" then ascii_of_byte x22 else c) (requote s')
  end.

Definition json_text (s : string) : bytes := bytes_of (requote s).

(** [int64], as an integer with its wrap-around written out. *)
Definition min_int64 : Z := (- 2 ^ 63)%Z.
Definition max_int64 : Z := (2 ^ 63 - 1)%Z.
Definition wrap64 (z : Z) : Z := ((z + 2 ^ 63) `mod` 2 ^ 64 - 2 ^ 63)%Z.

(** [time.Duration] is an [int64] count of nanoseconds; unary minus wraps. *)
Definition Duration : Type := Z.
Definition Duration_neg (d : Duration) : Duration := wrap64 (- d).
Definition Second : Duration := 1000000000%Z.

(** [time.Time]: an instant (nanoseconds since the Unix epoch) and whether
    its location is UTC.  [time.Now()] answers in the local zone. *)
Record Time : Type := { unix_nano : Z; in_utc : bool }.

Definition time_UTC (t : Time) : Time :=
  {| unix_nano := unix_nano t; in_utc := true |}.

Definition time_Add (t : Time) (d : Duration) : Time :=
  {| unix_nano := (unix_nano t + d)%Z; in_utc := in_utc t |}.

(** Errors of [encoding/json]. *)
Inductive json_error : Type :=
| SyntaxError (msg : string)
| UnexpectedEOF
| UnmarshalTypeError (val : string) (type : string)
| MarshalerError (msg : string).

(** Go [error] values that the sources name or create, and the errors that
    collaborators hand back. *)
Inductive error : Type :=
| ErrElasticNotFound
| ErrElasticVersionConflict
| ErrUnknownEnrollType
| ErrNew (msg : string)
| ErrJSON (e : json_error)
| ErrCollaborator (msg : string).

(** A Go pair [(v, err)]: either the value, or a non-nil error. *)
Inductive res (E T : Type) : Type :=
| Ok (v : T)
| Err (e : E).
Arguments Ok {E T} v.
Arguments Err {E T} e.

Abbreviation result := (res error).
Abbreviation jresult := (res json_error).

Definition err_of {E T} (r : res E T) : option E :=
  match r with Ok _ => None | Err e => Some e end.

(** What [json.Unmarshal] builds in an [interface{}]. *)
Inductive value : Type :=
| VNil
| VBool (b : bool)
| VFloat64 (f : float)
| VString (s : string)
| VSlice (l : list value)
| VMap (m : gmap string value).

Definition json_kind (v : value) : string :=
  match v with
  | VNil => "null"
  | VBool _ => "bool"
  | VFloat64 _ => "number"
  | VString _ => "string"
  | VSlice _ => "array"
  | VMap _ => "object"
  end.

(** The value found by following a list of keys through nested objects. *)
Fixpoint path_lookup (p : list string) (v : value) : option value :=
  match p with
  | [] => Some v
  | k :: p' =>
      match v with
      | VMap m =>
          match m !! k with
          | Some v' => path_lookup p' v'
          | None => None
          end
      | _ => None
      end
  end.

(** The nested path that [updateLocalMetaAgentId] patches. *)
Definition agent_id_path : list string := ["elastic"; "agent"; "id"].

(** The map [m], whose ["elastic"] member is the map [sm], whose ["agent"]
    member is the map [am], after the one member ["id"] of [am] has been
    overwritten with the agent id. *)
Definition set_agent_id (m sm am : gmap string value) (agentId : string)
  : gmap string value :=
  <["elastic" := VMap (<["agent" := VMap (<["id" := VString agentId]> am)]> sm)]> m.

(** Neither list of keys is a prefix of the other. *)
Definition incomparable (p q : list string) : Prop :=
  ~ p `prefix_of` q /\ ~ q `prefix_of` p.

(** [uuid.UUID] is [[16]byte]; [String] is the canonical text
    xxxxxxxx-xxxx-xxxx-xxxx-xxxxxxxxxxxx in lower-case hexadecimal. *)
Definition UUID : Type := list byte.

Definition hex_digit (n : N) : ascii :=
  match n with
  | 0 => "0" | 1 => "1" | 2 => "2" | 3 => "3" | 4 => "4" | 5 => "5"
  | 6 => "6" | 7 => "7" | 8 => "8" | 9 => "9" | 10 => "a" | 11 => "b"
  | 12 => "c" | 13 => "d" | 14 => "e" | _ => "f"
  end%N%char.

Fixpoint hex_encode (bs : list byte) : string :=
  match bs with
  | [] => EmptyString
  | b :: bs' =>
      let n := Byte.to_N b in
      String (hex_digit (n / 16)) (String (hex_digit (n `mod` 16)) (hex_encode bs'))
  end.

Definition uuid_String (u : UUID) : string :=
  hex_encode (take 4 u) +:+ "-" +:+
  hex_encode (take 2 (drop 4 u)) +:+ "-" +:+
  hex_encode (take 2 (drop 6 u)) +:+ "-" +:+
  hex_encode (take 2 (drop 8 u)) +:+ "-" +:+
  hex_encode (take 6 (drop 10 u)).

(* ================================================================== *)
(** ** The data model *)
(* ================================================================== *)

Record ServerMetadata : Type := {
  sm_Id : string;
  sm_Version : string;
}.

(** Modelled from the spec: package [model] is not part of the sources.  A
    lease holds the server identity (id and version) or none, and the
    last-asserted time; [SetTime] writes that time. *)
Record PolicyLeader : Type := {
  pl_Server : option ServerMetadata;
  pl_Time : option Time;
}.

Definition PolicyLeader_zero : PolicyLeader :=
  {| pl_Server := None; pl_Time := None |}.

Definition ServerMetadata_zero : ServerMetadata :=
  {| sm_Id := ""; sm_Version := "" |}.

Definition SetTime (l : PolicyLeader) (t : Time) : PolicyLeader :=
  {| pl_Server := pl_Server l; pl_Time := Some t |}.

(** Modelled from the spec: an enrollment credential has an id, an owning
    policy id, an active flag and a store-side value. *)
Record EnrollmentApiKey : Type := {
  eak_ApiKeyId : string;
  eak_ApiKey : string;
  eak_PolicyId : string;
  eak_Active : bool;
}.

(** [apikey.ApiKey]: the id and the secret of a minted credential. *)
Record ApiKey : Type := {
  ak_Id : string;
  ak_Key : string;
}.

Inductive ApiKeyType : Type := TypeAccess | TypeOutput.

(** [apikey.NewMetadata agentId typ]. *)
Record ApiKeyMetadata : Type := {
  akm_AgentId : string;
  akm_Type : ApiKeyType;
}.

Definition apikey_NewMetadata (agentId : string) (typ : ApiKeyType) : ApiKeyMetadata :=
  {| akm_AgentId := agentId; akm_Type := typ |}.

(** The request body after decoding.  The two metadata blobs are
    [json.RawMessage]s, [nil] when the member is missing. *)
Record EnrollMetadata : Type := {
  em_User : option bytes;
  em_Local : option bytes;
}.

Record EnrollRequest : Type := {
  er_Type : string;
  er_SharedId : string;
  er_Meta : EnrollMetadata;
}.

Record Agent : Type := {
  ag_Active : bool;
  ag_PolicyId : string;
  ag_Type : string;
  ag_EnrolledAt : string;
  ag_UserProvidedMetadata : option bytes;
  ag_LocalMetadata : option bytes;
  ag_AccessApiKeyId : string;
  ag_ActionSeqNo : list Z;
}.

Record EnrollResponseItem : Type := {
  eri_ID : string;
  eri_Active : bool;
  eri_PolicyId : string;
  eri_Type : string;
  eri_EnrolledAt : string;
  eri_UserMeta : option bytes;
  eri_LocalMeta : option bytes;
  eri_AccessApiKeyId : string;
  eri_AccessAPIKey : string;
  eri_Status : string;
}.

Record EnrollResponse : Type := {
  resp_Action : string;
  resp_Item : EnrollResponseItem;
}.

(** What the handler reads of an [http.Request]. *)
Record Request : Type := {
  req_Header : list (string * string);
  req_Body : bytes;
}.

(** Modelled from the spec: the "undefined" sentinel of package [sqn], which
    is not part of the sources. *)
Definition UndefinedSeqNo : Z := (-1)%Z.

Definition kCacheAccessInitTTL : Duration := (Second * 30)%Z.
Definition kCacheEnrollmentTTL : Duration := (Second * 30)%Z.

#[global] Instance json_error_eq_dec : EqDecision json_error.
Proof. solve_decision. Defined.
#[global] Instance error_eq_dec : EqDecision error.
Proof. solve_decision. Defined.

(* ================================================================== *)
(** ** Collaborators *)
(* ================================================================== *)

(** The calls the sources make on their collaborators. *)
Inductive call : Type :=
(* bulk.Bulk *)
| BulkRead (index id : string) (refresh : bool)
| BulkUpdate (index id : string) (data : bytes)
| BulkCreate (index id : string) (data : bytes) (refresh : bool)
(* dl.FindEnrollmentAPIKey, by api-key id *)
| FindEnrollmentAPIKey (id : string)
(* time.Now, uuid.NewV4, apikey.Create *)
| TimeNow
| UuidNewV4
| ApikeyCreate (name ttl : string) (roles : bytes) (meta : ApiKeyMetadata)
(* cache.Cache *)
| CacheGetEnrollmentApiKey (id : string)
| CacheSetEnrollmentApiKey (id : string) (key : EnrollmentApiKey) (cost : Z) (ttl : Duration)
| CacheSetApiKey (key : ApiKey) (ttl : Duration)
(* limit.Limiter: Acquire answers a release function, named by a token *)
| LimitAcquire
| LimitRelease (token : nat)
(* authApiKey and validateUserAgent, defined elsewhere in package fleet *)
| AuthApiKey (r : Request)
| ValidateUserAgent (r : Request)
(* the cntEnroll counters *)
| CntEnrollIncStart
| CntEnrollDone
| CntEnrollBodyIn (n : Z).

Definition answer (c : call) : Type :=
  match c with
  | BulkRead _ _ _ => result bytes
  | BulkUpdate _ _ _ => option error
  | BulkCreate _ _ _ _ => result string
  | FindEnrollmentAPIKey _ => result EnrollmentApiKey
  | TimeNow => Time
  | UuidNewV4 => result UUID
  | ApikeyCreate _ _ _ _ => result ApiKey
  | CacheGetEnrollmentApiKey _ => option EnrollmentApiKey
  | CacheSetEnrollmentApiKey _ _ _ _ => unit
  | CacheSetApiKey _ _ => unit
  | LimitAcquire => result nat
  | LimitRelease _ => unit
  | AuthApiKey _ => result ApiKey
  | ValidateUserAgent _ => option error
  | CntEnrollIncStart => unit
  | CntEnrollDone => unit
  | CntEnrollBodyIn _ => unit
  end.

(** A Go function body: it returns, panics, or calls a collaborator and goes
    on with the answer. *)
Inductive prog (R : Type) : Type :=
| Ret (r : R)
| Panic (msg : string)
| Call (c : call) (k : answer c -> prog R).
Arguments Ret {R} r.
Arguments Panic {R} msg.
Arguments Call {R} c k.

Fixpoint bind {A B : Type} (p : prog A) (f : A -> prog B) : prog B :=
  match p with
  | Ret a => f a
  | Panic msg => Panic msg
  | Call c k => Call c (fun x => bind (k x) f)
  end.

Definition call_ (c : call) : prog (answer c) := Call c Ret.

(** [defer cleanup()]: the deferred call runs when the body returns and when
    it panics, after the returned value has been computed; what the deferred
    call returns is dropped. *)
Fixpoint defer {A C : Type} (cleanup : prog C) (body : prog A) : prog A :=
  match body with
  | Ret a => bind cleanup (fun _ => Ret a)
  | Panic msg => bind cleanup (fun _ => Panic msg)
  | Call c k => Call c (fun x => defer cleanup (k x))
  end.

Notation "x <- p ;; q" := (bind p (fun x => q))
  (at level 100, p at next level, right associativity).
(** [v, err := f(); if err != nil { return nil, err }] *)
Notation "'try' x <- p ;; q" :=
  (bind p (fun r => match r with Ok x => q | Err e => Ret (Err e) end))
  (at level 100, x name, p at next level, right associativity).

(** Collaborators: a state and an answer to every call. *)
Record handler : Type := {
  state : Type;
  handle : forall c : call, state -> answer c * state;
}.

(** A call together with the answer it got. *)
Definition event : Type := { c : call & answer c }.
Definition Ev (c : call) (a : answer c) : event := existT c a.

Inductive outcome (R : Type) : Type :=
| Returned (r : R)
| Panicked (msg : string).
Arguments Returned {R} r.
Arguments Panicked {R} msg.

Fixpoint run {R : Type} (H : handler) (p : prog R) (s : state H)
  : outcome R * state H * list event :=
  match p with
  | Ret r => (Returned r, s, [])
  | Panic msg => (Panicked msg, s, [])
  | Call c k =>
      let '(a, s1) := handle H c s in
      let '(o, s2, tr) := run H (k a) s1 in
      (o, s2, Ev c a :: tr)
  end.

(** The answer a handler gives to a call, and the state it leaves. *)
Definition ask (H : handler) (c : call) (s : state H) : answer c :=
  (handle H c s).1.

Definition next (H : handler) (c : call) (s : state H) : state H :=
  (handle H c s).2.

Definition outcome_of {R : Type} {S : Type} (r : outcome R * S * list event) : outcome R :=
  r.1.1.

Definition trace_of {R : Type} {S : Type} (r : outcome R * S * list event) : list event :=
  r.2.

(** Every call a program can make, whatever the answers, satisfies [P]. *)
Fixpoint calls_only {R : Type} (P : call -> Prop) (p : prog R) : Prop :=
  match p with
  | Ret _ => True
  | Panic _ => True
  | Call c k => P c /\ forall a, calls_only P (k a)
  end.

(** Whatever the answers, a program makes at most [n] calls of the class
    [f]. *)
Fixpoint calls_at_most {R : Type} (f : call -> bool) (n : nat) (p : prog R) : Prop :=
  match p with
  | Ret _ => True
  | Panic _ => True
  | Call c k =>
      if f c
      then match n with
           | O => False
           | S n' => forall a, calls_at_most f n' (k a)
           end
      else forall a, calls_at_most f n (k a)
  end.

(** In a trace, every event that satisfies [Q] comes after one that
    satisfies [P]. *)
Definition preceded_by (P Q : event -> Prop) (tr : list event) : Prop :=
  forall tr1 e tr2, tr = tr1 ++ e :: tr2 -> Q e -> exists e', e' ∈ tr1 /\ P e'.

(** A program that cannot panic, whatever the answers. *)
Fixpoint never_panics {R : Type} (p : prog R) : Prop :=
  match p with
  | Ret _ => True
  | Panic _ => False
  | Call c k => forall a, never_panics (k a)
  end.

(** Classification of the calls. *)
Definition store_write (c : call) : bool :=
  match c with
  | BulkUpdate _ _ _ | BulkCreate _ _ _ _ => true
  | _ => false
  end.

Definition store_read (c : call) : bool :=
  match c with
  | BulkRead _ _ _ | FindEnrollmentAPIKey _ => true
  | _ => false
  end.

Definition cache_call (c : call) : bool :=
  match c with
  | CacheGetEnrollmentApiKey _ | CacheSetEnrollmentApiKey _ _ _ _
  | CacheSetApiKey _ _ => true
  | _ => false
  end.

Definition cache_write (c : call) : bool :=
  match c with
  | CacheSetEnrollmentApiKey _ _ _ _ | CacheSetApiKey _ _ => true
  | _ => false
  end.

(** Minting an identity: a fresh agent id or an access credential. *)
Definition mint (c : call) : bool :=
  match c with
  | UuidNewV4 | ApikeyCreate _ _ _ _ => true
  | _ => false
  end.

Definition limiter_call (c : call) : bool :=
  match c with
  | LimitAcquire | LimitRelease _ => true
  | _ => false
  end.

Definition release_of (token : nat) (c : call) : bool :=
  match c with
  | LimitRelease t => bool_decide (t = token)
  | _ => false
  end.

(** The calls on the enroll counters and on the limiter: the bookkeeping
    around an enrollment. *)
Definition bookkeeping (c : call) : bool :=
  match c with
  | LimitAcquire | LimitRelease _ | CntEnrollIncStart | CntEnrollDone => true
  | _ => false
  end.

Definition counter_start (c : call) : bool :=
  match c with
  | CntEnrollIncStart => true
  | _ => false
  end.

Definition counter_done (c : call) : bool :=
  match c with
  | CntEnrollDone => true
  | _ => false
  end.

(** How many recorded calls satisfy [f], and that none does. *)
Definition count (f : call -> bool) (tr : list event) : nat :=
  length (filter (fun e => f (projT1 e) = true) tr).

Definition none_of (f : call -> bool) (tr : list event) : Prop :=
  Forall (fun e => f (projT1 e) = false) tr.

(* ================================================================== *)
(** ** Library functions and constants that the sources use *)
(* ================================================================== *)

(** [encoding/json] on the types of the sources, the text forms of times and
    tokens, and the constants of packages [dl] and [fleet] whose declarations
    are not part of the sources. *)
Class Runtime : Type := {
  (* json.Unmarshal into an interface{} and json.Marshal of such a value *)
  json_Unmarshal : bytes -> jresult value;
  json_Marshal : value -> jresult bytes;
  (* json.Unmarshal(data, &l) and json.Marshal(&l) for l model.PolicyLeader *)
  json_Unmarshal_PolicyLeader : bytes -> jresult PolicyLeader;
  json_Marshal_PolicyLeader : PolicyLeader -> jresult bytes;
  (* json.Marshal(&struct{ Doc model.PolicyLeader `json:"doc"` }{l}) *)
  json_Marshal_PolicyLeaderDoc : PolicyLeader -> jresult bytes;
  (* json.NewDecoder(body).Decode(&req), and how many bytes it read *)
  json_Decode_EnrollRequest : bytes -> jresult EnrollRequest;
  json_Decoder_read : bytes -> Z;
  json_Marshal_Agent : Agent -> jresult bytes;
  json_Marshal_EnrollResponse : EnrollResponse -> jresult bytes;
  (* t.Format(time.RFC3339) *)
  time_Format_RFC3339 : Time -> string;
  (* (apikey.ApiKey).Token *)
  apikey_Token : ApiKey -> string;
  (* index names and the access role document *)
  FleetPoliciesLeader : string;
  FleetAgents : string;
  kFleetAccessRolesJSON : string;
}.

Section Source.
Context `{RT : Runtime}.

(* ------------------------------------------------------------------ *)
(** *** internal/pkg/dl/policies_leader.go *)

(** The tail of [TakePolicyLeadership], from [if l.Server == nil] on. *)
Definition take_write (policyId serverId version : string)
    (found : bool) (l : PolicyLeader) : prog (option error) :=
  let srv := match pl_Server l with
             | None => ServerMetadata_zero
             | Some s => s
             end in
  (* l.Server.Id = serverId; l.Server.Version = version *)
  let srv := {| sm_Id := serverId; sm_Version := sm_Version srv |} in
  let srv := {| sm_Id := sm_Id srv; sm_Version := version |} in
  let l := {| pl_Server := Some srv; pl_Time := pl_Time l |} in
  now <- call_ TimeNow ;;
  let l := SetTime l (time_UTC now) in
  if found then
    match json_Marshal_PolicyLeaderDoc l with
    | Err e => Ret (Some (ErrJSON e))
    | Ok data =>
        err <- call_ (BulkUpdate FleetPoliciesLeader policyId data) ;;
        Ret err
    end
  else
    match json_Marshal_PolicyLeader l with
    | Err e => Ret (Some (ErrJSON e))
    | Ok data =>
        r <- call_ (BulkCreate FleetPoliciesLeader policyId data false) ;;
        Ret (err_of r)
    end.

Definition TakePolicyLeadership (policyId serverId version : string)
  : prog (option error) :=
  r <- call_ (BulkRead FleetPoliciesLeader policyId true) ;;
  match r with
  | Err e =>
      if decide (e = ErrElasticNotFound)
      then take_write policyId serverId version false PolicyLeader_zero
      else Ret (Some e)
  | Ok data =>
      match json_Unmarshal_PolicyLeader data with
      | Err e => Ret (Some (ErrJSON e))
      | Ok l => take_write policyId serverId version true l
      end
  end.

(** [time.Now().UTC().Add(-releaseInterval)] *)
Definition released_time (now : Time) (releaseInterval : Duration) : Time :=
  time_Add (time_UTC now) (Duration_neg releaseInterval).

Definition ReleasePolicyLeadership (policyId serverId : string)
    (releaseInterval : Duration) : prog (option error) :=
  r <- call_ (BulkRead FleetPoliciesLeader policyId true) ;;
  match r with
  | Err e =>
      if decide (e = ErrElasticNotFound)
      then Ret None                         (* nothing to do *)
      else Ret (Some e)
  | Ok data =>
      match json_Unmarshal_PolicyLeader data with
      | Err e => Ret (Some (ErrJSON e))
      | Ok l =>
          match pl_Server l with
          | None =>
              (* l.Server.Id with l.Server == nil *)
              Panic "invalid memory address or nil pointer dereference"
          | Some srv =>
              if decide (sm_Id srv <> serverId)
              then Ret None                 (* not leader anymore *)
              else
                now <- call_ TimeNow ;;
                let l := SetTime l (released_time now releaseInterval) in
                match json_Marshal_PolicyLeaderDoc l with
                | Err e => Ret (Some (ErrJSON e))
                | Ok data =>
                    err <- call_ (BulkUpdate FleetPoliciesLeader policyId data) ;;
                    if decide (err = Some ErrElasticVersionConflict)
                    then Ret None           (* another leader took over *)
                    else Ret err
                end
          end
      end
  end.

(* ------------------------------------------------------------------ *)
(** *** The enrollment handler *)

(** [json.Unmarshal(data, &m)] for [var m map[string]interface{}]: an object
    fills the map, [null] leaves it nil (no key is found in it), and any
    other JSON value is a type error. *)
Definition json_Unmarshal_map (data : bytes) : jresult (gmap string value) :=
  match json_Unmarshal data with
  | Err e => Err e
  | Ok (VMap m) => Ok m
  | Ok VNil => Ok ∅
  | Ok v => Err (UnmarshalTypeError (json_kind v) "map[string]interface {}")
  end.

(** Go maps are references: the assignment [sm["id"] = agentId] is made in
    the map held under ["agent"], which the map under ["elastic"] holds, which
    [m] holds; [json.Marshal(m)] sees it. *)
Definition updateLocalMetaAgentId (data : option bytes) (agentId : string)
  : result (option bytes) :=
  match data with
  | None => Ok None
  | Some d =>
      match json_Unmarshal_map d with
      | Err e => Err (ErrJSON e)
      | Ok m =>
          match m !! "elastic" with
          | Some (VMap sm) =>
              match sm !! "agent" with
              | Some (VMap am) =>
                  match am !! "id" with
                  | Some _ =>
                      let am := <["id" := VString agentId]> am in
                      let sm := <["agent" := VMap am]> sm in
                      let m := <["elastic" := VMap sm]> m in
                      match json_Marshal (VMap m) with
                      | Err e => Err (ErrJSON e)
                      | Ok out => Ok (Some out)
                      end
                  | None => Ok data
                  end
              | _ => Ok data
              end
          | _ => Ok data
          end
      end
  end.

Definition createFleetAgent (id : string) (agent : Agent) : prog (option error) :=
  match json_Marshal_Agent agent with
  | Err e => Ret (Some (ErrJSON e))
  | Ok data =>
      r <- call_ (BulkCreate FleetAgents id data true) ;;
      Ret (err_of r)
  end.

Definition generateAccessApiKey (agentId : string) : prog (result ApiKey) :=
  call_ (ApikeyCreate agentId "" (bytes_of kFleetAccessRolesJSON)
           (apikey_NewMetadata agentId TypeAccess)).

(** The [model.Agent] literal of [_enroll]; it gives no value to
    [UserProvidedMetadata], which keeps its zero value. *)
Definition agentData_of (req : EnrollRequest) (erec : EnrollmentApiKey)
    (now : Time) (localMeta : option bytes) (accessApiKey : ApiKey) : Agent :=
  {| ag_Active := true;
     ag_PolicyId := eak_PolicyId erec;
     ag_Type := er_Type req;
     ag_EnrolledAt := time_Format_RFC3339 (time_UTC now);
     ag_UserProvidedMetadata := None;
     ag_LocalMetadata := localMeta;
     ag_AccessApiKeyId := ak_Id accessApiKey;
     ag_ActionSeqNo := [UndefinedSeqNo] |}.

(** The [EnrollResponse] literal of [_enroll]. *)
Definition resp_of (agentId : string) (agentData : Agent) (accessApiKey : ApiKey)
  : EnrollResponse :=
  {| resp_Action := "created";
     resp_Item :=
       {| eri_ID := agentId;
          eri_Active := ag_Active agentData;
          eri_PolicyId := ag_PolicyId agentData;
          eri_Type := ag_Type agentData;
          eri_EnrolledAt := ag_EnrolledAt agentData;
          eri_UserMeta := ag_UserProvidedMetadata agentData;
          eri_LocalMeta := ag_LocalMetadata agentData;
          eri_AccessApiKeyId := ag_AccessApiKeyId agentData;
          eri_AccessAPIKey := apikey_Token accessApiKey;
          eri_Status := "online" |} |}.

Definition _enroll (req : EnrollRequest) (erec : EnrollmentApiKey)
  : prog (result EnrollResponse) :=
  if decide (er_SharedId req <> "")
  then Ret (Err (ErrNew "preexisting install not yet supported"))
  else
    now <- call_ TimeNow ;;
    (* Generate an ID here so we can pre-create the api key *)
    try u <- call_ UuidNewV4 ;;
    let agentId := uuid_String u in
    try accessApiKey <- generateAccessApiKey agentId ;;
    (* Update the local metadata agent id *)
    try localMeta <- Ret (updateLocalMetaAgentId (em_Local (er_Meta req)) agentId) ;;
    let agentData := agentData_of req erec now localMeta accessApiKey in
    err <- createFleetAgent agentId agentData ;;
    match err with
    | Some e => Ret (Err e)
    | None =>
        let resp := resp_of agentId agentData accessApiKey in
        (* cache the access key to avoid the roundtrip on impending checkin *)
        _ <- call_ (CacheSetApiKey accessApiKey kCacheAccessInitTTL) ;;
        Ret (Ok resp)
    end.

(** The calls of a complete [_enroll], in the order of its statements: the
    clock, the UUID generator, the credential issuer, the store's create, the
    cache. *)
Definition enroll_steps (u : UUID) (key : ApiKey) (data : bytes) : list call :=
  [ TimeNow;
    UuidNewV4;
    ApikeyCreate (uuid_String u) "" (bytes_of kFleetAccessRolesJSON)
      (apikey_NewMetadata (uuid_String u) TypeAccess);
    BulkCreate FleetAgents (uuid_String u) data true;
    CacheSetApiKey key kCacheAccessInitTTL ].

Definition fetchEnrollmentKeyRecord (id : string) : prog (result EnrollmentApiKey) :=
  hit <- call_ (CacheGetEnrollmentApiKey id) ;;
  match hit with
  | Some key => Ret (Ok key)
  | None =>
      (* Pull API key record from .fleet-enrollment-api-keys *)
      try rec <- call_ (FindEnrollmentAPIKey id) ;;
      if negb (eak_Active rec)
      then Ret (Err (ErrNew "record is inactive"))
      else
        (* len answers an int, which int64 holds exactly *)
        let cost := Z.of_nat (String.length (eak_ApiKey rec)) in
        _ <- call_ (CacheSetEnrollmentApiKey id rec cost kCacheEnrollmentTTL) ;;
        Ret (Ok rec)
  end.

Definition valid_enroll_type (t : string) : bool :=
  bool_decide (t = "EPHEMERAL") || bool_decide (t = "PERMANENT")
  || bool_decide (t = "TEMPORARY").

Definition decodeEnrollRequest (data : bytes) : result EnrollRequest :=
  match json_Decode_EnrollRequest data with
  | Err e => Err (ErrJSON e)
  | Ok req =>
      (* Validate *)
      if valid_enroll_type (er_Type req)
      then Ok req
      else Err ErrUnknownEnrollType
  end.

(** The statements of [(et *EnrollerT) handleEnroll] that follow
    [defer limitF()]. *)
Definition handleEnroll_admitted (r : Request) : prog (result bytes) :=
  try key <- call_ (AuthApiKey r) ;;
  err <- call_ (ValidateUserAgent r) ;;
  match err with
  | Some e => Ret (Err e)
  | None =>
      (* Metrics; serenity now. *)
      _ <- call_ CntEnrollIncStart ;;
      defer (call_ CntEnrollDone) (
        (* Validate that an enrollment record exists for a key with this id. *)
        try erec <- fetchEnrollmentKeyRecord (ak_Id key) ;;
        (* Parse the request body *)
        try req <- Ret (decodeEnrollRequest (req_Body r)) ;;
        _ <- call_ (CntEnrollBodyIn (json_Decoder_read (req_Body r))) ;;
        try resp <- _enroll req erec ;;
        match json_Marshal_EnrollResponse resp with
        | Err e => Ret (Err (ErrJSON e))
        | Ok data => Ret (Ok data)
        end)
  end.

(** [(et *EnrollerT) handleEnroll]: the two deferred calls run in reverse
    order of their [defer] statements, after [json.Marshal(resp)]. *)
Definition handleEnroll (r : Request) : prog (result bytes) :=
  try limitF <- call_ LimitAcquire ;;
  defer (call_ (LimitRelease limitF)) (handleEnroll_admitted r).

(** The statements of [handleEnroll] that run between [defer dfunc()] and
    the deferred calls, for the key that [authApiKey] returned. *)
Definition handleEnroll_counted (r : Request) (key : ApiKey) : prog (result bytes) :=
  try erec <- fetchEnrollmentKeyRecord (ak_Id key) ;;
  try req <- Ret (decodeEnrollRequest (req_Body r)) ;;
  _ <- call_ (CntEnrollBodyIn (json_Decoder_read (req_Body r))) ;;
  try resp <- _enroll req erec ;;
  match json_Marshal_EnrollResponse resp with
  | Err e => Ret (Err (ErrJSON e))
  | Ok data => Ret (Ok data)
  end.

End Source.

(* ================================================================== *)
(** ** A reference JSON codec *)
(* ================================================================== *)

(** A decoder and an encoder for the JSON texts built from [null], [true],
    [false], strings with the two-character escapes, arrays and objects.
    Number literals and [\u] escapes are outside this fragment, and the codec
    rejects them.  It serves the examples below; the theorems about the
    sources hold for every [Runtime]. *)
Module RefJson.

Definition is_ws (b : byte) : bool :=
  match b with
  | x20 | x09 | x0a | x0d => true
  | _ => false
  end.

Fixpoint skip_ws (s : bytes) : bytes :=
  match s with
  | b :: s' => if is_ws b then skip_ws s' else s
  | [] => []
  end.

Definition unescape (b : byte) : option ascii :=
  match b with
  | x22 => Some (ascii_of_byte x22)
  | x5c => Some "\"%char
  | x2f => Some "/"%char
  | x62 => Some (ascii_of_byte x08)
  | x66 => Some (ascii_of_byte x0c)
  | x6e => Some (ascii_of_byte x0a)
  | x72 => Some (ascii_of_byte x0d)
  | x74 => Some (ascii_of_byte x09)
  | _ => None
  end.

Definition cons_char (c : ascii) (r : jresult (string * bytes)) : jresult (string * bytes) :=
  match r with
  | Ok (s, rest) => Ok (String c s, rest)
  | Err e => Err e
  end.

(** The text of a string literal after its opening quote. *)
Fixpoint parse_string (fuel : nat) (s : bytes) : jresult (string * bytes) :=
  match fuel with
  | O => Err UnexpectedEOF
  | S fuel =>
      match s with
      | [] => Err UnexpectedEOF
      | x22 :: rest => Ok (EmptyString, rest)
      | x5c :: [] => Err UnexpectedEOF
      | x5c :: e :: rest =>
          match unescape e with
          | Some c => cons_char c (parse_string fuel rest)
          | None => Err (SyntaxError "invalid character in string escape code")
          end
      | b :: rest =>
          if (Byte.to_N b <? 32)%N
          then Err (SyntaxError "invalid character in string literal")
          else cons_char (ascii_of_byte b) (parse_string fuel rest)
      end
  end.

Inductive goal : Type :=
| GValue
| GElems (acc : list value)
| GMembers (acc : gmap string value).

Fixpoint parse (fuel : nat) (g : goal) (s : bytes) : jresult (value * bytes) :=
  match fuel with
  | O => Err (SyntaxError "exceeded max depth")
  | S fuel =>
      match g with
      | GValue =>
          match skip_ws s with
          | [] => Err UnexpectedEOF
          | x6e :: x75 :: x6c :: x6c :: rest => Ok (VNil, rest)
          | x74 :: x72 :: x75 :: x65 :: rest => Ok (VBool true, rest)
          | x66 :: x61 :: x6c :: x73 :: x65 :: rest => Ok (VBool false, rest)
          | x22 :: rest =>
              match parse_string (length rest) rest with
              | Ok (str, rest') => Ok (VString str, rest')
              | Err e => Err e
              end
          | x5b :: rest =>
              match skip_ws rest with
              | x5d :: rest' => Ok (VSlice [], rest')
              | _ => parse fuel (GElems []) rest
              end
          | x7b :: rest =>
              match skip_ws rest with
              | x7d :: rest' => Ok (VMap ∅, rest')
              | _ => parse fuel (GMembers ∅) rest
              end
          | _ => Err (SyntaxError "invalid character looking for beginning of value")
          end
      | GElems acc =>
          match parse fuel GValue s with
          | Err e => Err e
          | Ok (v, rest) =>
              match skip_ws rest with
              | [] => Err UnexpectedEOF
              | x2c :: rest' => parse fuel (GElems (acc ++ [v])) rest'
              | x5d :: rest' => Ok (VSlice (acc ++ [v]), rest')
              | _ => Err (SyntaxError "invalid character after array element")
              end
          end
      | GMembers acc =>
          match skip_ws s with
          | [] => Err UnexpectedEOF
          | x22 :: rest =>
              match parse_string (length rest) rest with
              | Err e => Err e
              | Ok (key, rest) =>
                  match skip_ws rest with
                  | [] => Err UnexpectedEOF
                  | x3a :: rest =>
                      match parse fuel GValue rest with
                      | Err e => Err e
                      | Ok (v, rest) =>
                          match skip_ws rest with
                          | [] => Err UnexpectedEOF
                          | x2c :: rest' => parse fuel (GMembers (<[key := v]> acc)) rest'
                          | x7d :: rest' => Ok (VMap (<[key := v]> acc), rest')
                          | _ => Err (SyntaxError "invalid character after object key:value pair")
                          end
                      end
                  | _ => Err (SyntaxError "invalid character after object key")
                  end
              end
          | _ => Err (SyntaxError "invalid character looking for beginning of object key string")
          end
      end
  end.

(** [json.Unmarshal]: one value, then nothing but white space. *)
Definition decode (s : bytes) : jresult value :=
  match parse (S (length s)) GValue s with
  | Err e => Err e
  | Ok (v, rest) =>
      match skip_ws rest with
      | [] => Ok v
      | _ => Err (SyntaxError "invalid character after top-level value")
      end
  end.

(** The first value of the text and how many bytes lie before its end, as a
    [json.Decoder] reads a stream. *)
Definition decode_first (s : bytes) : jresult (value * Z) :=
  match parse (S (length s)) GValue s with
  | Err e => Err e
  | Ok (v, rest) => Ok (v, Z.of_nat (length s - length rest))
  end.

Definition encode_char (c : ascii) : jresult bytes :=
  let b := byte_of_ascii c in
  match b with
  | x22 => Ok [x5c; x22]
  | x5c => Ok [x5c; x5c]
  | x0a => Ok [x5c; x6e]
  | x0d => Ok [x5c; x72]
  | x09 => Ok [x5c; x74]
  | x3c | x3e | x26 => Err (MarshalerError "outside the fragment")
  | _ => if (Byte.to_N b <? 32)%N
         then Err (MarshalerError "outside the fragment")
         else Ok [b]
  end.

Definition append_res (a b : jresult bytes) : jresult bytes :=
  match a, b with
  | Ok x, Ok y => Ok (x ++ y)
  | Err e, _ => Err e
  | _, Err e => Err e
  end.

Fixpoint encode_chars (s : string) : jresult bytes :=
  match s with
  | EmptyString => Ok []
  | String c s' => append_res (encode_char c) (encode_chars s')
  end.

Definition encode_string (s : string) : jresult bytes :=
  append_res (Ok [x22]) (append_res (encode_chars s) (Ok [x22])).

(** Members and elements, joined by commas. *)
Fixpoint join (items : list (jresult bytes)) : jresult bytes :=
  match items with
  | [] => Ok []
  | [x] => x
  | x :: rest => append_res x (append_res (Ok [x2c]) (join rest))
  end.

Definition key_le (a b : string * jresult bytes) : Prop :=
  String.leb a.1 b.1 = true.

#[global] Instance key_le_dec : RelDecision key_le.
Proof. intros a b. unfold key_le. apply _. Defined.

Definition encode_member (m : string * jresult bytes) : jresult bytes :=
  append_res (encode_string m.1) (append_res (Ok [x3a]) m.2).

(** [json.Marshal]: no white space, object members sorted by key. *)
Fixpoint encode (v : value) : jresult bytes :=
  match v with
  | VNil => Ok (bytes_of "null")
  | VBool true => Ok (bytes_of "true")
  | VBool false => Ok (bytes_of "false")
  | VFloat64 _ => Err (MarshalerError "outside the fragment")
  | VString s => encode_string s
  | VSlice l =>
      append_res (Ok [x5b]) (append_res (join (map encode l)) (Ok [x5d]))
  | VMap m =>
      let members := map_fold (fun k x acc => (k, encode x) :: acc) [] m in
      append_res (Ok [x7b])
        (append_res (join (map encode_member (merge_sort key_le members)))
           (Ok [x7d]))
  end.

End RefJson.

(* ================================================================== *)
(** ** Reference collaborators *)
(* ================================================================== *)

(** Modelled from the spec: the collaborators of the core (document store
    with create, read and partial update, TTL cache, admission limiter,
    credential issuer), none of which is part of the sources, together with
    a [Runtime] built on the reference codec.  The examples run the sources
    against them. *)
Module Ref.

Definition decimal (z : Z) : string := NilZero.string_of_int (Z.to_int z).

Definition of_decimal (s : string) : option Z :=
  Z.of_int <$> NilZero.int_of_string s.

(** A lease time in a lease document: the instant in decimal and the zone. *)
Definition time_to_value (t : Time) : value :=
  VMap (<["unix_nano" := VString (decimal (unix_nano t))]>
        (<["utc" := VBool (in_utc t)]> ∅)).

Definition time_of_value (v : value) : jresult (option Time) :=
  match v with
  | VNil => Ok None
  | VMap m =>
      match m !! "unix_nano", m !! "utc" with
      | Some (VString s), Some (VBool b) =>
          match of_decimal s with
          | Some z => Ok (Some {| unix_nano := z; in_utc := b |})
          | None => Err (UnmarshalTypeError "string" "time.Time")
          end
      | _, _ => Err (UnmarshalTypeError "object" "time.Time")
      end
  | _ => Err (UnmarshalTypeError (json_kind v) "time.Time")
  end.

(** A string field: missing or [null] leaves the zero value. *)
Definition string_field (m : gmap string value) (k ty : string) : jresult string :=
  match m !! k with
  | None | Some VNil => Ok ""
  | Some (VString s) => Ok s
  | Some v => Err (UnmarshalTypeError (json_kind v) ty)
  end.

Definition server_to_value (o : option ServerMetadata) : value :=
  match o with
  | None => VNil
  | Some s =>
      VMap (<["id" := VString (sm_Id s)]>
            (<["version" := VString (sm_Version s)]> ∅))
  end.

Definition server_of_value (v : value) : jresult (option ServerMetadata) :=
  match v with
  | VNil => Ok None
  | VMap m =>
      match string_field m "id" "string", string_field m "version" "string" with
      | Ok i, Ok ver => Ok (Some {| sm_Id := i; sm_Version := ver |})
      | Err e, _ => Err e
      | _, Err e => Err e
      end
  | _ => Err (UnmarshalTypeError (json_kind v) "model.ServerMetadata")
  end.

Definition leader_to_value (l : PolicyLeader) : value :=
  let m := <["server" := server_to_value (pl_Server l)]> ∅ in
  VMap (match pl_Time l with
        | None => m
        | Some t => <["@timestamp" := time_to_value t]> m
        end).

Definition leader_of_value (v : value) : jresult PolicyLeader :=
  match v with
  | VNil => Ok PolicyLeader_zero
  | VMap m =>
      match server_of_value (default VNil (m !! "server")),
            time_of_value (default VNil (m !! "@timestamp")) with
      | Ok s, Ok t => Ok {| pl_Server := s; pl_Time := t |}
      | Err e, _ => Err e
      | _, Err e => Err e
      end
  | _ => Err (UnmarshalTypeError (json_kind v) "model.PolicyLeader")
  end.

Definition unmarshal_leader (data : bytes) : jresult PolicyLeader :=
  match RefJson.decode data with
  | Ok v => leader_of_value v
  | Err e => Err e
  end.

Definition marshal_leader (l : PolicyLeader) : jresult bytes :=
  RefJson.encode (leader_to_value l).

Definition marshal_leader_doc (l : PolicyLeader) : jresult bytes :=
  RefJson.encode (VMap (<["doc" := leader_to_value l]> ∅)).

(** A [json.RawMessage] member: [nil] is written as [null]. *)
Definition raw_to_value (r : option bytes) : jresult value :=
  match r with
  | None => Ok VNil
  | Some b => RefJson.decode b
  end.

Definition raw_of_value (o : option value) : jresult (option bytes) :=
  match o with
  | None => Ok None
  | Some v =>
      match RefJson.encode v with
      | Ok b => Ok (Some b)
      | Err e => Err e
      end
  end.

Definition metadata_of_value (o : option value) : jresult EnrollMetadata :=
  match o with
  | None | Some VNil => Ok {| em_User := None; em_Local := None |}
  | Some (VMap m) =>
      match raw_of_value (m !! "user_provided"), raw_of_value (m !! "local") with
      | Ok u, Ok l => Ok {| em_User := u; em_Local := l |}
      | Err e, _ => Err e
      | _, Err e => Err e
      end
  | Some v => Err (UnmarshalTypeError (json_kind v) "fleet.EnrollMetadata")
  end.

Definition decode_request (body : bytes) : jresult EnrollRequest :=
  match RefJson.decode_first body with
  | Err e => Err e
  | Ok (VMap m, _) =>
      match string_field m "type" "string", string_field m "shared_id" "string",
            metadata_of_value (m !! "metadata") with
      | Ok t, Ok sh, Ok md => Ok {| er_Type := t; er_SharedId := sh; er_Meta := md |}
      | Err e, _, _ => Err e
      | _, Err e, _ => Err e
      | _, _, Err e => Err e
      end
  | Ok (VNil, _) =>
      Ok {| er_Type := ""; er_SharedId := "";
            er_Meta := {| em_User := None; em_Local := None |} |}
  | Ok (v, _) => Err (UnmarshalTypeError (json_kind v) "fleet.EnrollRequest")
  end.

Definition decoder_read (body : bytes) : Z :=
  match RefJson.decode_first body with
  | Ok (_, n) => n
  | Err _ => Z.of_nat (length body)
  end.

Definition seqno_to_value (z : Z) : value := VString (decimal z).

Definition agent_to_value (a : Agent) : jresult value :=
  match raw_to_value (ag_UserProvidedMetadata a), raw_to_value (ag_LocalMetadata a) with
  | Ok u, Ok l =>
      Ok (VMap (<["active" := VBool (ag_Active a)]>
               (<["policy_id" := VString (ag_PolicyId a)]>
               (<["type" := VString (ag_Type a)]>
               (<["enrolled_at" := VString (ag_EnrolledAt a)]>
               (<["user_provided_metadata" := u]>
               (<["local_metadata" := l]>
               (<["access_api_key_id" := VString (ag_AccessApiKeyId a)]>
               (<["action_seq_no" := VSlice (seqno_to_value <$> ag_ActionSeqNo a)]> ∅)))))))))
  | Err e, _ => Err e
  | _, Err e => Err e
  end.

Definition marshal_agent (a : Agent) : jresult bytes :=
  match agent_to_value a with
  | Ok v => RefJson.encode v
  | Err e => Err e
  end.

Definition item_to_value (i : EnrollResponseItem) : jresult value :=
  match raw_to_value (eri_UserMeta i), raw_to_value (eri_LocalMeta i) with
  | Ok u, Ok l =>
      Ok (VMap (<["id" := VString (eri_ID i)]>
               (<["active" := VBool (eri_Active i)]>
               (<["policy_id" := VString (eri_PolicyId i)]>
               (<["type" := VString (eri_Type i)]>
               (<["enrolled_at" := VString (eri_EnrolledAt i)]>
               (<["user_provided_metadata" := u]>
               (<["local_metadata" := l]>
               (<["access_api_key_id" := VString (eri_AccessApiKeyId i)]>
               (<["access_api_key" := VString (eri_AccessAPIKey i)]>
               (<["status" := VString (eri_Status i)]> ∅)))))))))))
  | Err e, _ => Err e
  | _, Err e => Err e
  end.

Definition marshal_response (r : EnrollResponse) : jresult bytes :=
  match item_to_value (resp_Item r) with
  | Ok v =>
      RefJson.encode (VMap (<["action" := VString (resp_Action r)]>
                           (<["item" := v]> ∅)))
  | Err e => Err e
  end.

(** RFC 3339 text of an instant, to the second, for a zone at offset zero. *)
Definition pad2 (z : Z) : string :=
  if (z <? 10)%Z then "0" +:+ decimal z else decimal z.

Definition pad4 (z : Z) : string :=
  if (z <? 10)%Z then "000" +:+ decimal z
  else if (z <? 100)%Z then "00" +:+ decimal z
  else if (z <? 1000)%Z then "0" +:+ decimal z
  else decimal z.

Definition civil_from_days (days : Z) : Z * Z * Z :=
  let z := (days + 719468)%Z in
  let era := (z `div` 146097)%Z in
  let doe := (z - era * 146097)%Z in
  let yoe := ((doe - doe `div` 1460 + doe `div` 36524 - doe `div` 146096) `div` 365)%Z in
  let doy := (doe - (365 * yoe + yoe `div` 4 - yoe `div` 100))%Z in
  let mp := ((5 * doy + 2) `div` 153)%Z in
  let d := (doy - (153 * mp + 2) `div` 5 + 1)%Z in
  let m := (if (mp <? 10)%Z then mp + 3 else mp - 9)%Z in
  let y := (yoe + era * 400 + (if (m <=? 2)%Z then 1 else 0))%Z in
  (y, m, d).

Definition format_rfc3339 (t : Time) : string :=
  let secs := (unix_nano t `div` 1000000000)%Z in
  let '(y, m, d) := civil_from_days (secs `div` 86400) in
  let sod := (secs `mod` 86400)%Z in
  pad4 y +:+ "-" +:+ pad2 m +:+ "-" +:+ pad2 d +:+ "T" +:+
  pad2 (sod `div` 3600) +:+ ":" +:+ pad2 ((sod `mod` 3600) `div` 60) +:+ ":" +:+
  pad2 (sod `mod` 60) +:+ "Z".

(** The token of an access credential: its id and its secret. *)
Definition token (k : ApiKey) : string := ak_Id k +:+ ":" +:+ ak_Key k.

#[global] Instance runtime : Runtime := {|
  json_Unmarshal := RefJson.decode;
  json_Marshal := RefJson.encode;
  json_Unmarshal_PolicyLeader := unmarshal_leader;
  json_Marshal_PolicyLeader := marshal_leader;
  json_Marshal_PolicyLeaderDoc := marshal_leader_doc;
  json_Decode_EnrollRequest := decode_request;
  json_Decoder_read := decoder_read;
  json_Marshal_Agent := marshal_agent;
  json_Marshal_EnrollResponse := marshal_response;
  time_Format_RFC3339 := format_rfc3339;
  apikey_Token := token;
  FleetPoliciesLeader := ".fleet-policies-leader";
  FleetAgents := ".fleet-agents";
  kFleetAccessRolesJSON := "{}";
|}.

(** The store merges the [doc] member of an update body into the stored
    source, member by member. *)
Fixpoint merge (new old : value) {struct new} : value :=
  match new, old with
  | VMap n, VMap o =>
      VMap (map_fold
              (fun k nv acc =>
                 <[k := match o !! k with
                        | Some ov => merge nv ov
                        | None => nv
                        end]> acc)
              o n)
  | _, _ => new
  end.

Definition apply_update (stored body : bytes) : option bytes :=
  match RefJson.decode stored, RefJson.decode body with
  | Ok old, Ok (VMap b) =>
      match b !! "doc" with
      | Some new =>
          match RefJson.encode (merge new old) with
          | Ok out => Some out
          | Err _ => None
          end
      | None => None
      end
  | _, _ => None
  end.

Record World : Type := {
  (* the document store: sources by index and id *)
  docs : gmap (string * string) bytes;
  (* the enrollment credentials the store holds, by api-key id *)
  enrollment_keys : gmap string EnrollmentApiKey;
  (* the cache: entries with the instant at which they expire *)
  cached_enrollment_keys : gmap string (EnrollmentApiKey * Z * Z);
  cached_api_keys : gmap string (ApiKey * Z);
  (* the clock, in nanoseconds since the epoch *)
  clock : Z;
  (* the answers the UUID generator will give *)
  uuids : list UUID;
  (* credentials issued, by name *)
  issued : list ApiKey;
  (* the limiter: capacity, slots held, next token *)
  capacity : nat;
  held : list nat;
  next_token : nat;
  (* the credentials that requests authenticate with, by Authorization header *)
  api_keys : gmap string ApiKey;
  (* the enroll counters: requests in flight, body bytes read *)
  cnt_active : Z;
  cnt_body_in : Z;
}.

Definition set_docs (w : World) (d : gmap (string * string) bytes) : World :=
  {| docs := d; enrollment_keys := enrollment_keys w;
     cached_enrollment_keys := cached_enrollment_keys w;
     cached_api_keys := cached_api_keys w; clock := clock w; uuids := uuids w;
     issued := issued w; capacity := capacity w; held := held w;
     next_token := next_token w; api_keys := api_keys w;
     cnt_active := cnt_active w; cnt_body_in := cnt_body_in w |}.

Definition set_enrollment_keys (w : World) (k : gmap string EnrollmentApiKey) : World :=
  {| docs := docs w; enrollment_keys := k;
     cached_enrollment_keys := cached_enrollment_keys w;
     cached_api_keys := cached_api_keys w; clock := clock w; uuids := uuids w;
     issued := issued w; capacity := capacity w; held := held w;
     next_token := next_token w; api_keys := api_keys w;
     cnt_active := cnt_active w; cnt_body_in := cnt_body_in w |}.

Definition set_cached_enrollment_keys (w : World)
    (c : gmap string (EnrollmentApiKey * Z * Z)) : World :=
  {| docs := docs w; enrollment_keys := enrollment_keys w;
     cached_enrollment_keys := c;
     cached_api_keys := cached_api_keys w; clock := clock w; uuids := uuids w;
     issued := issued w; capacity := capacity w; held := held w;
     next_token := next_token w; api_keys := api_keys w;
     cnt_active := cnt_active w; cnt_body_in := cnt_body_in w |}.

Definition set_cached_api_keys (w : World) (c : gmap string (ApiKey * Z)) : World :=
  {| docs := docs w; enrollment_keys := enrollment_keys w;
     cached_enrollment_keys := cached_enrollment_keys w;
     cached_api_keys := c; clock := clock w; uuids := uuids w;
     issued := issued w; capacity := capacity w; held := held w;
     next_token := next_token w; api_keys := api_keys w;
     cnt_active := cnt_active w; cnt_body_in := cnt_body_in w |}.

Definition set_clock (w : World) (t : Z) : World :=
  {| docs := docs w; enrollment_keys := enrollment_keys w;
     cached_enrollment_keys := cached_enrollment_keys w;
     cached_api_keys := cached_api_keys w; clock := t; uuids := uuids w;
     issued := issued w; capacity := capacity w; held := held w;
     next_token := next_token w; api_keys := api_keys w;
     cnt_active := cnt_active w; cnt_body_in := cnt_body_in w |}.

Definition set_uuids (w : World) (u : list UUID) : World :=
  {| docs := docs w; enrollment_keys := enrollment_keys w;
     cached_enrollment_keys := cached_enrollment_keys w;
     cached_api_keys := cached_api_keys w; clock := clock w; uuids := u;
     issued := issued w; capacity := capacity w; held := held w;
     next_token := next_token w; api_keys := api_keys w;
     cnt_active := cnt_active w; cnt_body_in := cnt_body_in w |}.

Definition set_issued (w : World) (i : list ApiKey) : World :=
  {| docs := docs w; enrollment_keys := enrollment_keys w;
     cached_enrollment_keys := cached_enrollment_keys w;
     cached_api_keys := cached_api_keys w; clock := clock w; uuids := uuids w;
     issued := i; capacity := capacity w; held := held w;
     next_token := next_token w; api_keys := api_keys w;
     cnt_active := cnt_active w; cnt_body_in := cnt_body_in w |}.

Definition set_limiter (w : World) (h : list nat) (n : nat) : World :=
  {| docs := docs w; enrollment_keys := enrollment_keys w;
     cached_enrollment_keys := cached_enrollment_keys w;
     cached_api_keys := cached_api_keys w; clock := clock w; uuids := uuids w;
     issued := issued w; capacity := capacity w; held := h;
     next_token := n; api_keys := api_keys w;
     cnt_active := cnt_active w; cnt_body_in := cnt_body_in w |}.

Definition set_counters (w : World) (a b : Z) : World :=
  {| docs := docs w; enrollment_keys := enrollment_keys w;
     cached_enrollment_keys := cached_enrollment_keys w;
     cached_api_keys := cached_api_keys w; clock := clock w; uuids := uuids w;
     issued := issued w; capacity := capacity w; held := held w;
     next_token := next_token w; api_keys := api_keys w;
     cnt_active := a; cnt_body_in := b |}.

Definition header (r : Request) (name : string) : option string :=
  snd <$> List.find (fun h => bool_decide (h.1 = name)) (req_Header r).

(** An entry is served while the clock is before its expiry. *)
Definition cache_get (w : World) (id : string) : option EnrollmentApiKey :=
  match cached_enrollment_keys w !! id with
  | Some (key, _, expiry) => if (clock w <? expiry)%Z then Some key else None
  | None => None
  end.

Definition step (c : call) (w : World) : answer c * World :=
  match c return answer c * World with
  | BulkRead index id _ =>
      match docs w !! (index, id) with
      | Some data => (Ok data, w)
      | None => (Err ErrElasticNotFound, w)
      end
  | BulkUpdate index id body =>
      match docs w !! (index, id) with
      | None => (Some ErrElasticNotFound, w)
      | Some stored =>
          match apply_update stored body with
          | Some data => (None, set_docs w (<[(index, id) := data]> (docs w)))
          | None => (Some (ErrCollaborator "mapper_parsing_exception"), w)
          end
      end
  | BulkCreate index id data _ =>
      match docs w !! (index, id) with
      | Some _ => (Err ErrElasticVersionConflict, w)
      | None => (Ok id, set_docs w (<[(index, id) := data]> (docs w)))
      end
  | FindEnrollmentAPIKey id =>
      match enrollment_keys w !! id with
      | Some key => (Ok key, w)
      | None => (Err (ErrCollaborator "enrollment api key not found"), w)
      end
  | TimeNow => ({| unix_nano := clock w; in_utc := false |}, w)
  | UuidNewV4 =>
      match uuids w with
      | u :: rest => (Ok u, set_uuids w rest)
      | [] => (Err (ErrCollaborator "no entropy"), w)
      end
  | ApikeyCreate name _ _ _ =>
      let key := {| ak_Id := "key-" +:+ name; ak_Key := "secret" |} in
      (Ok key, set_issued w (key :: issued w))
  | CacheGetEnrollmentApiKey id => (cache_get w id, w)
  | CacheSetEnrollmentApiKey id key cost ttl =>
      (tt, set_cached_enrollment_keys w
             (<[id := (key, cost, (clock w + ttl)%Z)]> (cached_enrollment_keys w)))
  | CacheSetApiKey key ttl =>
      (tt, set_cached_api_keys w
             (<[ak_Id key := (key, (clock w + ttl)%Z)]> (cached_api_keys w)))
  | LimitAcquire =>
      if decide (length (held w) < capacity w)%nat
      then (Ok (next_token w), set_limiter w (next_token w :: held w) (S (next_token w)))
      else (Err (ErrCollaborator "max limit"), w)
  | LimitRelease t =>
      (tt, set_limiter w (filter (fun x => x <> t) (held w)) (next_token w))
  | AuthApiKey r =>
      match header r "Authorization" with
      | None => (Err (ErrCollaborator "no authorization header"), w)
      | Some h =>
          match api_keys w !! h with
          | Some key => (Ok key, w)
          | None => (Err (ErrCollaborator "unauthorized"), w)
          end
      end
  | ValidateUserAgent r =>
      match header r "User-Agent" with
      | Some _ => (None, w)
      | None => (Some (ErrCollaborator "user-agent is unsupported"), w)
      end
  | CntEnrollIncStart => (tt, set_counters w (cnt_active w + 1)%Z (cnt_body_in w))
  | CntEnrollDone => (tt, set_counters w (cnt_active w - 1)%Z (cnt_body_in w))
  | CntEnrollBodyIn n => (tt, set_counters w (cnt_active w) (cnt_body_in w + n)%Z)
  end.

Definition collaborators : handler := {| state := World; handle := step |}.

(** The lease document of a policy, as a reader of the store sees it. *)
Definition lease (w : World) (policyId : string) : option (jresult PolicyLeader) :=
  unmarshal_leader <$> docs w !! (".fleet-policies-leader", policyId).

Definition empty_world : World :=
  {| docs := ∅; enrollment_keys := ∅; cached_enrollment_keys := ∅;
     cached_api_keys := ∅; clock := 1614834367000000000%Z; uuids := [];
     issued := []; capacity := 1%nat; held := []; next_token := 0%nat;
     api_keys := ∅; cnt_active := 0%Z; cnt_body_in := 0%Z |}.

(** Worlds and inputs for the examples. *)
Definition shared_id_request : Request :=
  {| req_Header := [("Authorization", "ApiKey abc"); ("User-Agent", "elastic agent 8.0.0")];
     req_Body := json_text "{'type':'PERMANENT','shared_id':'host-7'}" |}.

Definition array_metadata_req : EnrollRequest :=
  {| er_Type := "PERMANENT"; er_SharedId := "";
     er_Meta := {| em_User := None; em_Local := Some (json_text "[]") |} |}.

Definition srvA_world : World :=
  (run collaborators (TakePolicyLeadership "P" "srvA" "v1") empty_world).1.2.

Definition srvB_world : World :=
  (run collaborators (TakePolicyLeadership "P" "srvB" "v1")
     (set_clock srvA_world (clock srvA_world + 1000000000)%Z)).1.2.

(** A lease document without a server. *)
Definition serverless_world : World :=
  set_docs empty_world {[ (".fleet-policies-leader", "P") := bytes_of "{}" ]}.

Definition example_uuid : UUID :=
  [x1b; x9c; x32; x7a; xc9; x3a; x4a; xef; xb6; x7f; xef; xfb; xef; x54; xd8; x36].

Definition example_erec : EnrollmentApiKey :=
  {| eak_ApiKeyId := "ek1"; eak_ApiKey := "c2VjcmV0"; eak_PolicyId := "policy-1";
     eak_Active := true |}.

Definition example_body : bytes :=
  json_text
    ("{'type':'PERMANENT','metadata':{'user_provided':{'tag':'blue'},"
     +:+ "'local':{'elastic':{'agent':{'id':'OLD','snapshot':false}},"
     +:+ "'host':{'id':'h1'}}}}").

Definition example_req : EnrollRequest :=
  {| er_Type := "PERMANENT"; er_SharedId := "";
     er_Meta :=
       {| em_User := Some (json_text "{'tag':'blue'}");
          em_Local :=
            Some (json_text
                    ("{'elastic':{'agent':{'id':'OLD','snapshot':false}},"
                     +:+ "'host':{'id':'h1'}}")) |} |}.

Definition example_request : Request :=
  {| req_Header := [("Authorization", "ApiKey abc"); ("User-Agent", "elastic agent 8.0.0")];
     req_Body := example_body |}.

Definition enroll_world : World :=
  {| docs := ∅; enrollment_keys := {[ "ek1" := example_erec ]};
     cached_enrollment_keys := ∅; cached_api_keys := ∅;
     clock := 1614834367000000000%Z; uuids := [example_uuid];
     issued := []; capacity := 1%nat; held := []; next_token := 0%nat;
     api_keys := {[ "ApiKey abc" := {| ak_Id := "ek1"; ak_Key := "abc" |} ]};
     cnt_active := 0%Z; cnt_body_in := 0%Z |}.



(** A body with bytes after its first JSON value: not a JSON text. *)
Definition trailing_request : Request :=
  {| req_Header := req_Header example_request;
     req_Body := example_body ++ bytes_of "}}" |}.

(** A request of a valid type whose local metadata is a JSON array, as a
    body and as the handler's request. *)
Definition array_metadata_request : Request :=
  {| req_Header := req_Header example_request;
     req_Body := json_text "{'type':'PERMANENT','metadata':{'local':[]}}" |}.

(** An enrollment credential whose id is the text of the UUID that the
    generator of [enroll_world] answers next. *)
Definition colliding_erec : EnrollmentApiKey :=
  {| eak_ApiKeyId := uuid_String example_uuid; eak_ApiKey := "c2VjcmV0";
     eak_PolicyId := "policy-1"; eak_Active := true |}.

End Ref.

(* ================================================================== *)
(** ** More of the sources *)
(* ================================================================== *)

(** [generateOutputApiKey]: the credential of one output of an agent, named
    [fmt.Sprintf("%s:%s", agentId, outputName)]. *)
Definition output_key_name (agentId outputName : string) : string :=
  agentId +:+ ":" +:+ outputName.

Definition generateOutputApiKey (agentId outputName : string) (roles : bytes)
  : prog (result ApiKey) :=
  let name := output_key_name agentId outputName in
  call_ (ApikeyCreate name "" roles (apikey_NewMetadata agentId TypeOutput)).

(* ------------------------------------------------------------------ *)
(** *** internal/pkg/es/result.go *)

(** [HitT]; [Source] is a [json.RawMessage] and [Score] a [*float64]. *)
Record HitT : Type := {
  hit_Id : string;
  hit_SeqNo : Z;
  hit_Index : string;
  hit_Source : bytes;
  hit_Score : option float;
}.

Record TotalT : Type := {
  total_Relation : string;
  total_Value : Z;
}.

Record HitsT : Type := {
  hits_Hits : list HitT;
  hits_Total : TotalT;
  hits_MaxScore : option float;
}.

(** [Bucket]; a [nil] map of aggregations is [None]. *)
Record Bucket : Type := {
  bucket_Key : string;
  bucket_DocCount : Z;
  bucket_Aggregations : option (gmap string HitsT);
}.

Record Aggregation : Type := {
  agg_Value : float;
  agg_DocCountErrorUpperBound : Z;
  agg_SumOtherDocCount : Z;
  agg_Buckets : list Bucket;
}.

(** [ResultT]: the embedded [HitsT] and the aggregations. *)
Record ResultT : Type := {
  res_HitsT : HitsT;
  res_Aggregations : option (gmap string Aggregation);
}.

(** The [json] struct tags of the fields of [_bucket], in the order of the
    declaration. *)
Definition _bucket_tags : list string := ["key"; "doc_count"; "-"].

(** [strings.Split(tag, ",")[0]]: the tag up to its first comma. *)
Fixpoint tag_name (tag : string) : string :=
  match tag with
  | EmptyString => EmptyString
  | String c rest => if Ascii.eqb c "," then EmptyString else String c (tag_name rest)
  end.

(** The loop over the fields of [_bucket]: [delete(aggs, jsonTag)] for each
    tag name that is neither empty nor ["-"]. *)
Fixpoint delete_tags (tags : list string) (aggs : gmap string value) : gmap string value :=
  match tags with
  | [] => aggs
  | tag :: rest =>
      let jsonTag := tag_name tag in
      if bool_decide (jsonTag <> "") && bool_decide (jsonTag <> "-")
      then delete_tags rest (delete jsonTag aggs)
      else delete_tags rest aggs
  end.

(** The decoders of the two structs of [es] that [UnmarshalJSON] fills
    through [encoding/json], and the name of the id field in package [dl]. *)
Class EsRuntime : Type := {
  (* json.Unmarshal(data, &b2) for b2 of type _bucket: the aggregations,
     tagged "-", stay nil *)
  json_Unmarshal__bucket : bytes -> jresult Bucket;
  (* json.Unmarshal(data, &hits) for hits of type HitsT *)
  json_Unmarshal_HitsT : bytes -> jresult HitsT;
  FieldId : string;
}.

Section MoreSource.
Context `{RT : Runtime} `{ES : EsRuntime}.

(** The body of [for name, value := range aggs], for the entries of [aggs] in
    the order in which the runtime happens to produce them. *)
Fixpoint range_aggs (entries : list (string * value)) (aggregations : gmap string HitsT)
  : jresult (gmap string HitsT) :=
  match entries with
  | [] => Ok aggregations
  | (name, value) :: rest =>
      match value with
      | VMap vMap =>
          match vMap !! "hits" with
          | Some hMap =>
              match json_Marshal hMap with
              | Err e => Err e
              | Ok data =>
                  match json_Unmarshal_HitsT data with
                  | Err e => Err e
                  | Ok hits => range_aggs rest (<[name := hits]> aggregations)
                  end
              end
          | None => range_aggs rest aggregations         (* continue *)
          end
      | _ => range_aggs rest aggregations                (* continue *)
      end
  end.

(** [(b *Bucket) UnmarshalJSON]: the new value of [*b], or the error, in
    which case [*b] is not assigned.  [order] lists the entries of a map as
    the [range] statement visits them. *)
Definition Bucket_UnmarshalJSON
    (order : gmap string value -> list (string * value)) (data : bytes)
  : jresult Bucket :=
  match json_Unmarshal__bucket data with
  | Err e => Err e
  | Ok b2 =>
      match json_Unmarshal_map data with
      | Err e => Err e
      | Ok aggs =>
          let aggs := delete_tags _bucket_tags aggs in
          match range_aggs (order aggs) ∅ with
          | Err e => Err e
          | Ok aggregations =>
              Ok {| bucket_Key := bucket_Key b2;
                    bucket_DocCount := bucket_DocCount b2;
                    bucket_Aggregations := Some aggregations |}
          end
      end
  end.

(** A member of a bucket that [UnmarshalJSON] reads as an aggregation: an
    object with a ["hits"] member. *)
Definition hits_member (v : value) : option value :=
  match v with
  | VMap vMap => vMap !! "hits"
  | _ => None
  end.

(** The loop of [SearchPolicyLeaders] over the hits. The map is the named
    result [leaders], which is returned as it stands when a hit does not
    decode. *)
Fixpoint range_hits (hits : list HitT) (leaders : gmap string PolicyLeader)
  : gmap string PolicyLeader * option error :=
  match hits with
  | [] => (leaders, None)
  | hit :: rest =>
      match json_Unmarshal_PolicyLeader (hit_Source hit) with
      | Err e => (leaders, Some (ErrJSON e))
      | Ok l => range_hits rest (<[hit_Id hit := l]> leaders)
      end
  end.

End MoreSource.

Section BucketSpec.
Context `{RT : Runtime} `{ES : EsRuntime}.

(** What the loop of [UnmarshalJSON] makes of one member: nothing when the
    member is skipped, else the result of encoding its ["hits"] and decoding
    that as a [HitsT]. *)
Definition decode_hits_member (v : value) : option (jresult HitsT) :=
  match hits_member v with
  | None => None
  | Some hMap =>
      Some (match json_Marshal hMap with
            | Err e => Err e
            | Ok data => json_Unmarshal_HitsT data
            end)
  end.

(** The aggregation that a member contributes, if any. *)
Definition aggregation_of (v : value) : option HitsT :=
  match decode_hits_member v with
  | Some (Ok hits) => Some hits
  | _ => None
  end.

End BucketSpec.

(* ------------------------------------------------------------------ *)
(** *** The callers: the search of the leases and the HTTP route *)

Definition wrap_u64 (z : Z) : Z := (z `mod` 2 ^ 64)%Z.

Definition StatusNotFound : Z := 404%Z.

(** The calls of the core, and the calls that [SearchPolicyLeaders] and
    [(rt Router) handleEnroll] make besides. *)
Inductive xcall : Type :=
| Core (c : call)
(* bulker.Search(ctx, indices, data) *)
| BulkSearch (indices : list string) (data : bytes)
(* initSearchPolicyLeadersOnce.Do(...): what the function literal leaves in
   err; the template is package state *)
| OncePrepareSearchPolicyLeaders
(* tmplSearchPolicyLeaders.RenderOne(field, ids); package dsl is not part of
   the sources, and the call may panic on a nil template *)
| TmplRenderOne (field : string) (ids : list string)
(* http.Error(w, body, code) *)
| HttpError (body : string) (code : Z)
(* cntEnroll.IncError(err): code, category, message, log level *)
| CntEnrollIncError (err : error)
(* WriteError(w, code, str, msg) *)
| WriteError (code : Z) (str msg : string)
(* w.Write(data): bytes written, error *)
| ResponseWrite (data : bytes)
(* cntEnroll.bodyOut.Add(n) *)
| CntEnrollBodyOutAdd (n : Z)
(* a zerolog event, by its level and message *)
| Log (level msg : string).

Definition xanswer (c : xcall) : Type :=
  match c with
  | Core c => answer c
  | BulkSearch _ _ => result ResultT
  | OncePrepareSearchPolicyLeaders => option error
  | TmplRenderOne _ _ => outcome (result bytes)
  | HttpError _ _ => unit
  | CntEnrollIncError _ => Z * string * string * string
  | WriteError _ _ _ => option error
  | ResponseWrite _ => Z * option error
  | CntEnrollBodyOutAdd _ => unit
  | Log _ _ => unit
  end.

Inductive xprog (R : Type) : Type :=
| XRet (r : R)
| XPanic (msg : string)
| XCall (c : xcall) (k : xanswer c -> xprog R).
Arguments XRet {R} r.
Arguments XPanic {R} msg.
Arguments XCall {R} c k.

Fixpoint xbind {A B : Type} (p : xprog A) (f : A -> xprog B) : xprog B :=
  match p with
  | XRet a => f a
  | XPanic msg => XPanic msg
  | XCall c k => XCall c (fun x => xbind (k x) f)
  end.

Definition xcall_ (c : xcall) : xprog (xanswer c) := XCall c XRet.

(** A function of the core, called from one of its callers. *)
Fixpoint lift {R : Type} (p : prog R) : xprog R :=
  match p with
  | Ret r => XRet r
  | Panic msg => XPanic msg
  | Call c k => XCall (Core c) (fun x => lift (k x))
  end.

Notation "x <~ p ;; q" := (xbind p (fun x => q))
  (at level 100, p at next level, right associativity).

Record xhandler : Type := {
  xstate : Type;
  xhandle : forall c : xcall, xstate -> xanswer c * xstate;
}.

Definition xevent : Type := { c : xcall & xanswer c }.
Definition XEv (c : xcall) (a : xanswer c) : xevent := existT c a.

Fixpoint xrun {R : Type} (X : xhandler) (p : xprog R) (s : xstate X)
  : outcome R * xstate X * list xevent :=
  match p with
  | XRet r => (Returned r, s, [])
  | XPanic msg => (Panicked msg, s, [])
  | XCall c k =>
      let '(a, s1) := xhandle X c s in
      let '(o, s2, tr) := xrun X (k a) s1 in
      (o, s2, XEv c a :: tr)
  end.

Definition xask (X : xhandler) (c : xcall) (s : xstate X) : xanswer c :=
  (xhandle X c s).1.

Definition xnext (X : xhandler) (c : xcall) (s : xstate X) : xstate X :=
  (xhandle X c s).2.

(** The core's collaborators among those of a caller. *)
Definition core_of (X : xhandler) : handler :=
  {| state := xstate X; handle := fun c s => xhandle X (Core c) s |}.

Definition core_event (e : event) : xevent := XEv (Core (projT1 e)) (projT2 e).

(** Every call a program can make satisfies [P]. *)
Fixpoint xcalls_only {R : Type} (P : xcall -> Prop) (p : xprog R) : Prop :=
  match p with
  | XRet _ => True
  | XPanic _ => True
  | XCall c k => P c /\ forall a, xcalls_only P (k a)
  end.

(** The calls that send something to the client. *)
Definition responds (c : xcall) : bool :=
  match c with
  | HttpError _ _ | WriteError _ _ _ | ResponseWrite _ => true
  | _ => false
  end.

(** A write to the document store, among the calls of a caller. *)
Definition xstore_write (c : xcall) : bool :=
  match c with
  | Core c => store_write c
  | _ => false
  end.

Definition xcount (f : xcall -> bool) (tr : list xevent) : nat :=
  length (filter (fun e => f (projT1 e) = true) tr).

Section Callers.
Context `{RT : Runtime} `{ES : EsRuntime}.

(** [SearchPolicyLeaders]: the two results are the named results [leaders]
    (a map that may be nil) and [err].  The error that the [Once] literal
    leaves in [err] is overwritten by the short variable declaration that
    follows. *)
Definition SearchPolicyLeaders (ids : list string)
  : xprog (option (gmap string PolicyLeader) * option error) :=
  _ <~ xcall_ OncePrepareSearchPolicyLeaders ;;
  rendered <~ xcall_ (TmplRenderOne FieldId ids) ;;
  match rendered with
  | Panicked msg => XPanic msg
  | Returned (Err e) => XRet (None, Some e)
  | Returned (Ok data) =>
      r <~ xcall_ (BulkSearch [FleetPoliciesLeader] data) ;;
      match r with
      | Err e => XRet (None, Some e)
      | Ok res =>
          let '(leaders, err) := range_hits (hits_Hits (res_HitsT res)) ∅ in
          XRet (Some leaders, err)
      end
  end.

(** [(rt Router) handleEnroll], for the value of the route parameter
    ["id"]. *)
Definition Router_handleEnroll (id : string) (r : Request) : xprog unit :=
  start <~ xcall_ (Core TimeNow) ;;
  (* Work around wonky router rule *)
  if decide (id <> "enroll")
  then
    _ <~ xcall_ (HttpError "" StatusNotFound) ;;
    XRet tt
  else
    res <~ lift (handleEnroll r) ;;
    match res with
    | Err err =>
        counted <~ xcall_ (CntEnrollIncError err) ;;
        let '(code, str, msg, lvl) := counted in
        since <~ xcall_ (Core TimeNow) ;;
        _ <~ xcall_ (Log lvl "Enroll fail") ;;
        werr <~ xcall_ (WriteError code str msg) ;;
        match werr with
        | Some _ =>
            _ <~ xcall_ (Log "error" "fail writing error response") ;;
            XRet tt
        | None => XRet tt
        end
    | Ok data =>
        written <~ xcall_ (ResponseWrite data) ;;
        let '(numWritten, werr) := written in
        _ <~ match werr with
             | Some _ => xcall_ (Log "error" "fail send enroll response")
             | None => XRet tt
             end ;;
        _ <~ xcall_ (CntEnrollBodyOutAdd (wrap_u64 numWritten)) ;;
        since <~ xcall_ (Core TimeNow) ;;
        _ <~ xcall_ (Log "trace" "handleEnroll OK") ;;
        XRet tt
    end.

End Callers.

(** The hit with a given id that the loop of [SearchPolicyLeaders] visits
    last. *)
Definition last_hit (id : string) (hits : list HitT) : option HitT :=
  last (filter (fun h => hit_Id h = id) hits).

(** The name under which a program asks for a credential, if it asks for
    one first. *)
Definition requested_name {R : Type} (p : prog R) : option string :=
  match p with
  | Call (ApikeyCreate name _ _ _) _ => Some name
  | _ => None
  end.

(* ================================================================== *)
(** ** Reference collaborators of the callers *)
(* ================================================================== *)

(** Modelled from the spec: the search of the document store, the response
    writer and the counters, none of which is part of the sources, over the
    reference collaborators of the core; and decoders for the structs of
    [es] on the reference codec (numeric members are outside its fragment and
    keep their zero value).  The examples run the callers against them. *)
Module RefX.

Definition field_string := Ref.string_field.

Definition hit_of_value (v : value) : jresult HitT :=
  match v with
  | VMap m =>
      match field_string m "_id" "string", field_string m "_index" "string",
            Ref.raw_of_value (m !! "_source") with
      | Ok i, Ok ix, Ok src =>
          Ok {| hit_Id := i; hit_SeqNo := 0; hit_Index := ix;
                hit_Source := default [] src; hit_Score := None |}
      | Err e, _, _ => Err e
      | _, Err e, _ => Err e
      | _, _, Err e => Err e
      end
  | _ => Err (UnmarshalTypeError (json_kind v) "es.HitT")
  end.

Fixpoint hits_of_values (vs : list value) : jresult (list HitT) :=
  match vs with
  | [] => Ok []
  | v :: rest =>
      match hit_of_value v, hits_of_values rest with
      | Ok h, Ok hs => Ok (h :: hs)
      | Err e, _ => Err e
      | _, Err e => Err e
      end
  end.

Definition total_of_value (o : option value) : jresult TotalT :=
  match o with
  | None | Some VNil => Ok {| total_Relation := ""; total_Value := 0 |}
  | Some (VMap m) =>
      match field_string m "relation" "string" with
      | Ok rel => Ok {| total_Relation := rel; total_Value := 0 |}
      | Err e => Err e
      end
  | Some v => Err (UnmarshalTypeError (json_kind v) "struct")
  end.

Definition hits_of_value (v : value) : jresult HitsT :=
  match v with
  | VNil =>
      Ok {| hits_Hits := [];
            hits_Total := {| total_Relation := ""; total_Value := 0 |};
            hits_MaxScore := None |}
  | VMap m =>
      match match m !! "hits" with
            | None | Some VNil => Ok []
            | Some (VSlice vs) => hits_of_values vs
            | Some w => Err (UnmarshalTypeError (json_kind w) "[]es.HitT")
            end,
            total_of_value (m !! "total") with
      | Ok hs, Ok t => Ok {| hits_Hits := hs; hits_Total := t; hits_MaxScore := None |}
      | Err e, _ => Err e
      | _, Err e => Err e
      end
  | _ => Err (UnmarshalTypeError (json_kind v) "es.HitsT")
  end.

Definition unmarshal_hits (data : bytes) : jresult HitsT :=
  match RefJson.decode data with
  | Ok v => hits_of_value v
  | Err e => Err e
  end.

Definition unmarshal_bucket (data : bytes) : jresult Bucket :=
  match RefJson.decode data with
  | Err e => Err e
  | Ok VNil => Ok {| bucket_Key := ""; bucket_DocCount := 0; bucket_Aggregations := None |}
  | Ok (VMap m) =>
      match field_string m "key" "string" with
      | Ok k => Ok {| bucket_Key := k; bucket_DocCount := 0; bucket_Aggregations := None |}
      | Err e => Err e
      end
  | Ok v => Err (UnmarshalTypeError (json_kind v) "es._bucket")
  end.

#[global] Instance es_runtime : EsRuntime := {|
  json_Unmarshal__bucket := unmarshal_bucket;
  json_Unmarshal_HitsT := unmarshal_hits;
  FieldId := "_id";
|}.

(** What the client has been sent. *)
Inductive sent : Type :=
| SentError (body : string) (code : Z)
| SentFailure (code : Z) (str msg : string)
| SentBody (data : bytes).

Record XWorld : Type := {
  core : Ref.World;
  prepared : bool;
  outbox : list sent;
  body_out : Z;
  logged : list (string * string);
}.

Definition set_core (w : XWorld) (c : Ref.World) : XWorld :=
  {| core := c; prepared := prepared w; outbox := outbox w;
     body_out := body_out w; logged := logged w |}.

Definition set_prepared (w : XWorld) : XWorld :=
  {| core := core w; prepared := true; outbox := outbox w;
     body_out := body_out w; logged := logged w |}.

Definition send (w : XWorld) (x : sent) : XWorld :=
  {| core := core w; prepared := prepared w; outbox := outbox w ++ [x];
     body_out := body_out w; logged := logged w |}.

Definition add_body_out (w : XWorld) (n : Z) : XWorld :=
  {| core := core w; prepared := prepared w; outbox := outbox w;
     body_out := (body_out w + n)%Z; logged := logged w |}.

Definition log (w : XWorld) (level msg : string) : XWorld :=
  {| core := core w; prepared := prepared w; outbox := outbox w;
     body_out := body_out w; logged := logged w ++ [(level, msg)] |}.

(** The rendered query is the JSON array of the ids. *)
Definition render (ids : list string) : jresult bytes :=
  RefJson.encode (VSlice (VString <$> ids)).

Definition queried_ids (data : bytes) : option (list string) :=
  match RefJson.decode data with
  | Ok (VSlice vs) =>
      Some (omap (fun v => match v with VString s => Some s | _ => None end) vs)
  | _ => None
  end.

(** The search answers one hit for each queried id that has a document. *)
Definition search (w : Ref.World) (index : string) (ids : list string) : list HitT :=
  omap (fun id =>
          match Ref.docs w !! (index, id) with
          | Some src =>
              Some {| hit_Id := id; hit_SeqNo := 0; hit_Index := index;
                      hit_Source := src; hit_Score := None |}
          | None => None
          end) ids.

(** Modelled from the spec: failures reach the boundary as a triple of code,
    category and message; the counter also answers a log level. *)
Definition classify (err : error) : Z * string * string * string :=
  match err with
  | ErrUnknownEnrollType => (400%Z, "BadRequest", "unknown enroll request type", "warn")
  | ErrJSON _ => (400%Z, "BadRequest", "bad request", "warn")
  | ErrCollaborator "max limit" => (429%Z, "MaxLimit", "exceeded the max limit", "warn")
  | _ => (500%Z, "Internal", "internal error", "error")
  end.

Definition xstep (c : xcall) (w : XWorld) : xanswer c * XWorld :=
  match c return xanswer c * XWorld with
  | Core c =>
      let '(a, c') := Ref.step c (core w) in (a, set_core w c')
  | BulkSearch indices data =>
      match indices, queried_ids data with
      | [index], Some ids =>
          let hits := search (core w) index ids in
          (Ok {| res_HitsT :=
                   {| hits_Hits := hits;
                      hits_Total := {| total_Relation := "eq";
                                       total_Value := Z.of_nat (length hits) |};
                      hits_MaxScore := None |};
                 res_Aggregations := None |}, w)
      | _, _ => (Err (ErrCollaborator "parsing_exception"), w)
      end
  | OncePrepareSearchPolicyLeaders => (None, set_prepared w)
  | TmplRenderOne _ ids =>
      match render ids with
      | Ok data => (Returned (Ok data), w)
      | Err e => (Returned (Err (ErrJSON e)), w)
      end
  | HttpError body code => (tt, send w (SentError body code))
  | CntEnrollIncError err => (classify err, w)
  | WriteError code str msg => (None, send w (SentFailure code str msg))
  | ResponseWrite data => ((Z.of_nat (length data), None), send w (SentBody data))
  | CntEnrollBodyOutAdd n => (tt, add_body_out w n)
  | Log level msg => (tt, log w level msg)
  end.

Definition collaborators : xhandler := {| xstate := XWorld; xhandle := xstep |}.

Definition over (c : Ref.World) : XWorld :=
  {| core := c; prepared := false; outbox := []; body_out := 0; logged := [] |}.

(** A bucket with two aggregations among its members. *)
Definition example_bucket : bytes :=
  json_text
    ("{'key':'policy-1','top':{'hits':{'hits':[{'_id':'a','_index':'idx','_source':{}}],"
     +:+ "'total':{'relation':'eq'}}},'other':{'x':null},'flag':true,"
     +:+ "'late':{'hits':{'hits':[]}}}").

(** A bucket with a member whose ["hits"] do not decode. *)
Definition example_bad_bucket : bytes :=
  json_text "{'key':'policy-1','top':{'hits':{'hits':true}}}".

Definition reversed (m : gmap string value) : list (string * value) :=
  reverse (map_to_list m).

End RefX.

(* ================================================================== *)
(** ** Running programs *)
(* ================================================================== *)

Lemma handle_ask_next (H : handler) (c : call) (s : state H) :
  handle H c s = (ask H c s, next H c s).
Proof. unfold ask, next. by destruct (handle H c s). Qed.

Lemma run_Call {R : Type} (H : handler) (c : call) (k : answer c -> prog R) (s : state H) :
  run H (Call c k) s =
  (outcome_of (run H (k (ask H c s)) (next H c s)),
   (run H (k (ask H c s)) (next H c s)).1.2,
   Ev c (ask H c s) :: trace_of (run H (k (ask H c s)) (next H c s))).
Proof.
  simpl. rewrite handle_ask_next.
  by destruct (run H (k (ask H c s)) (next H c s)) as [[o s2] tr].
Qed.

Lemma run_bind {A B : Type} (H : handler) (p : prog A) (f : A -> prog B) (s : state H) :
  run H (bind p f) s =
  match run H p s with
  | (Returned a, s1, tr1) =>
      let '(o, s2, tr2) := run H (f a) s1 in (o, s2, tr1 ++ tr2)
  | (Panicked msg, s1, tr1) => (Panicked msg, s1, tr1)
  end.
Proof.
  revert s. induction p as [a | msg | c k IH]; intros s; simpl.
  - by destruct (run H (f a) s) as [[o s2] tr2].
  - done.
  - destruct (handle H c s) as [a s1]. rewrite IH.
    destruct (run H (k a) s1) as [[[r | msg] s2] tr1]; [| done].
    by destruct (run H (f r) s2) as [[o s3] tr2].
Qed.

(** A deferred call that cannot panic runs after the body, whatever the
    body's outcome, and leaves that outcome as it is. *)
Lemma run_defer_call {A : Type} (H : handler) (c : call) (body : prog A) (s : state H) :
  run H (defer (call_ c) body) s =
  let '(o, s1, tr1) := run H body s in
  (o, next H c s1, tr1 ++ [Ev c (ask H c s1)]).
Proof.
  revert s. induction body as [a | msg | c' k IH]; intros s; simpl.
  - by rewrite handle_ask_next.
  - by rewrite handle_ask_next.
  - destruct (handle H c' s) as [a s1]. rewrite IH.
    by destruct (run H (k a) s1) as [[o s2] tr1].
Qed.

Lemma calls_only_bind {A B : Type} (P : call -> Prop) (p : prog A) (f : A -> prog B) :
  calls_only P p -> (forall a, calls_only P (f a)) -> calls_only P (bind p f).
Proof.
  induction p as [a | msg | c k IH]; simpl; [auto | auto |].
  intros [Hc Hk] Hf. split; [done |]. intros a. by apply IH.
Qed.

Lemma calls_only_trace {R : Type} (P : call -> Prop) (H : handler) (p : prog R) (s : state H) :
  calls_only P p -> Forall (fun e => P (projT1 e)) (trace_of (run H p s)).
Proof.
  revert s. induction p as [a | msg | c k IH]; intros s; simpl.
  - intros _. constructor.
  - intros _. constructor.
  - intros [Hc Hk]. destruct (handle H c s) as [a s1].
    specialize (IH a s1 (Hk a)).
    destruct (run H (k a) s1) as [[o s2] tr]. simpl in *.
    by constructor.
Qed.

Lemma never_panics_run {R : Type} (H : handler) (p : prog R) (s : state H) :
  never_panics p -> exists r, outcome_of (run H p s) = Returned r.
Proof.
  revert s. induction p as [a | msg | c k IH]; intros s; simpl.
  - intros _. by exists a.
  - done.
  - intros Hk. destruct (handle H c s) as [a s1].
    destruct (IH a s1 (Hk a)) as [r Hr].
    destruct (run H (k a) s1) as [[o s2] tr]. by exists r.
Qed.

Lemma count_app (f : call -> bool) (tr1 tr2 : list event) :
  count f (tr1 ++ tr2) = (count f tr1 + count f tr2)%nat.
Proof. unfold count. by rewrite filter_app, length_app. Qed.

Lemma count_none_of (f : call -> bool) (tr : list event) :
  none_of f tr -> count f tr = 0%nat.
Proof.
  unfold none_of, count. induction 1 as [| e tr He _ IH]; [done |].
  rewrite filter_cons. destruct (decide (f (projT1 e) = true)) as [Ht | _]; [congruence | done].
Qed.

Lemma released_time_utc (now : Time) (d : Duration) :
  in_utc (released_time now d) = true.
Proof. done. Qed.

Lemma Duration_neg_exact (d : Duration) :
  (min_int64 < d <= max_int64)%Z -> Duration_neg d = (- d)%Z.
Proof.
  unfold Duration_neg, wrap64, min_int64, max_int64. intros Hd.
  rewrite Z.mod_small; lia.
Qed.

(** Away from the least [int64], the release time is the instant of [now]
    less the interval. *)
Lemma released_time_instant (now : Time) (d : Duration) :
  (min_int64 < d <= max_int64)%Z ->
  unix_nano (released_time now d) = (unix_nano now - d)%Z.
Proof.
  intros Hd. unfold released_time. simpl. rewrite Duration_neg_exact by done. lia.
Qed.


(** One step of [run]: name the answer of the next call. *)
Ltac run_step :=
  cbn [run bind call_ defer err_of]; rewrite ?handle_ask_next;
  cbn [run bind call_ defer err_of].

(* ================================================================== *)
(** ** The policy-leadership lease *)
(* ================================================================== *)

Section Lease.
Context `{RT : Runtime}.
Variable H : handler.


(** C9, as the code behaves.  A lease document that is read and unmarshalled
    with no server makes [ReleasePolicyLeadership] panic at [l.Server.Id]:
    nothing is returned. *)
Theorem ReleasePolicyLeadership_nil_server_panics (s : state H)
    (policyId serverId : string) (releaseInterval : Duration) (data : bytes) (l : PolicyLeader) :
  let read := BulkRead FleetPoliciesLeader policyId true in
  ask H read s = Ok data ->
  json_Unmarshal_PolicyLeader data = Ok l ->
  pl_Server l = None ->
  run H (ReleasePolicyLeadership policyId serverId releaseInterval) s =
    (Panicked "invalid memory address or nil pointer dereference",
     next H read s, [Ev read (Ok data)]).
Proof.
  intros read Hr Hl Hsrv. unfold ReleasePolicyLeadership. fold read.
  run_step. by rewrite Hr, Hl, Hsrv.
Qed.

(** C2. [TakePolicyLeadership], for every policy id and whatever the
    collaborators answer: it reads the lease document; when there is none it
    creates one that holds the given server id and version and the current
    time in UTC; when there is one, whoever it names, it sends the given
    server id and version and the current time in UTC in one update, and
    returns what the update answers, a version conflict like any other error:
    no answer is examined. *)
Theorem TakePolicyLeadership_cases (s : state H)
    (policyId serverId version : string) :
  let read := BulkRead FleetPoliciesLeader policyId true in
  let s1 := next H read s in
  let now := ask H TimeNow s1 in
  let s2 := next H TimeNow s1 in
  let fresh := {| pl_Server := Some {| sm_Id := serverId; sm_Version := version |};
                  pl_Time := Some (time_UTC now) |} in
  let p := TakePolicyLeadership policyId serverId version in
  (* no lease document: create *)
  (forall body,
     ask H read s = Err ErrElasticNotFound ->
     json_Marshal_PolicyLeader fresh = Ok body ->
     let create := BulkCreate FleetPoliciesLeader policyId body false in
     run H p s =
       (Returned (err_of (ask H create s2)), next H create s2,
        [Ev read (Err ErrElasticNotFound); Ev TimeNow now; Ev create (ask H create s2)]))
  /\
  (* a lease document: overwrite in place *)
  (forall data l body,
     ask H read s = Ok data ->
     json_Unmarshal_PolicyLeader data = Ok l ->
     json_Marshal_PolicyLeaderDoc fresh = Ok body ->
     let update := BulkUpdate FleetPoliciesLeader policyId body in
     run H p s =
       (Returned (ask H update s2), next H update s2,
        [Ev read (Ok data); Ev TimeNow now; Ev update (ask H update s2)]))
  /\
  (* errors of the read and of the codec *)
  (forall e,
     ask H read s = Err e -> e <> ErrElasticNotFound ->
     run H p s = (Returned (Some e), s1, [Ev read (Err e)]))
  /\
  (forall data e,
     ask H read s = Ok data ->
     json_Unmarshal_PolicyLeader data = Err e ->
     run H p s = (Returned (Some (ErrJSON e)), s1, [Ev read (Ok data)])).
Proof.
  intros read s1 now s2 fresh p. unfold p, TakePolicyLeadership. fold read.
  repeat split.
  - intros body Hr Hbody. run_step. fold s1. rewrite Hr.
    rewrite decide_True by done. unfold take_write. run_step. fold now s2.
    unfold SetTime. cbn [pl_Server pl_Time sm_Id sm_Version]. fold fresh.
    rewrite Hbody. by run_step.
  - intros data l body Hr Hl Hbody. run_step. fold s1. rewrite Hr, Hl.
    unfold take_write. run_step. fold now s2.
    unfold SetTime. cbn [pl_Server pl_Time sm_Id sm_Version]. fold fresh.
    rewrite Hbody. by run_step.
  - intros e Hr Hne. run_step. fold s1. rewrite Hr. by rewrite decide_False.
  - intros data e Hr Hl. run_step. fold s1. by rewrite Hr, Hl.
Qed.

End Lease.

(* ================================================================== *)
(** ** Enrollment *)
(* ================================================================== *)

Lemma calls_only_defer {A C : Type} (P : call -> Prop) (cleanup : prog C) (body : prog A) :
  calls_only P cleanup -> calls_only P body -> calls_only P (defer cleanup body).
Proof.
  intros Hc. induction body as [a | msg | c k IH]; simpl.
  - intros _. by apply calls_only_bind.
  - intros _. by apply calls_only_bind.
  - intros [Hcall Hk]. split; [done |]. intros a. by apply IH.
Qed.

Lemma never_panics_bind {A B : Type} (p : prog A) (f : A -> prog B) :
  never_panics p -> (forall a, never_panics (f a)) -> never_panics (bind p f).
Proof.
  induction p as [a | msg | c k IH]; simpl; [auto | done |].
  intros Hk Hf a. by apply IH.
Qed.

Lemma never_panics_defer {A C : Type} (cleanup : prog C) (body : prog A) :
  never_panics cleanup -> never_panics body -> never_panics (defer cleanup body).
Proof.
  intros Hc. induction body as [a | msg | c k IH]; simpl.
  - intros _. by apply never_panics_bind.
  - done.
  - intros Hk a. by apply IH.
Qed.

(** Walk through a program, splitting on every answer and every test. *)
Ltac walk :=
  repeat (cbn [calls_only never_panics bind defer call_];
          first
            [ done
            | split
            | intros ?
            | match goal with
              | |- context [match ?x with _ => _ end] => destruct x eqn:?
              end ]).

Section Enroll.
Context `{RT : Runtime}.
Variable H : handler.

Lemma fetchEnrollmentKeyRecord_calls (P : call -> Prop) (id : string) :
  P (CacheGetEnrollmentApiKey id) ->
  P (FindEnrollmentAPIKey id) ->
  (forall key cost ttl, P (CacheSetEnrollmentApiKey id key cost ttl)) ->
  calls_only P (fetchEnrollmentKeyRecord id).
Proof. intros Hg Hf Hs. unfold fetchEnrollmentKeyRecord. walk; auto. Qed.

Lemma _enroll_calls (P : call -> Prop) (req : EnrollRequest) (erec : EnrollmentApiKey) :
  P TimeNow -> P UuidNewV4 ->
  (forall n t r m, P (ApikeyCreate n t r m)) ->
  (forall i d, P (BulkCreate FleetAgents i d true)) ->
  (forall k t, P (CacheSetApiKey k t)) ->
  calls_only P (_enroll req erec).
Proof.
  intros Ht Hu Ha Hc Hs.
  unfold _enroll, generateAccessApiKey, createFleetAgent. walk; auto.
Qed.

(** The calls of [handleEnroll] between the acquisition of the slot and its
    release: none is a call on the limiter. *)
Lemma handleEnroll_admitted_no_limiter (r : Request) :
  calls_only (fun c => limiter_call c = false) (handleEnroll_admitted r).
Proof.
  unfold handleEnroll_admitted.
  cbn [calls_only bind call_]. split; [done |]. intros [key | e]; [| done].
  cbn [calls_only bind call_]. split; [done |]. intros [e |]; [done |].
  cbn [calls_only bind call_]. split; [done |]. intros _.
  apply calls_only_defer; [by split |].
  apply calls_only_bind; [by apply fetchEnrollmentKeyRecord_calls |].
  intros [erec | e]; [| done].
  destruct (decodeEnrollRequest (req_Body r)) as [req | e]; [| done].
  cbn [calls_only bind call_]. split; [done |]. intros _.
  apply calls_only_bind; [by apply _enroll_calls |].
  intros [resp | e]; [| done].
  by destruct (json_Marshal_EnrollResponse resp).
Qed.

(** When the body does not decode, no identity is minted and nothing is
    written to the store. *)
Lemma handleEnroll_undecoded_calls (r : Request) (e : error) :
  decodeEnrollRequest (req_Body r) = Err e ->
  calls_only (fun c => mint c = false /\ store_write c = false) (handleEnroll r).
Proof.
  intros Hd. unfold handleEnroll, handleEnroll_admitted.
  cbn [calls_only bind call_]. split; [done |]. intros [t | e0]; [| done].
  apply calls_only_defer; [by split |].
  cbn [calls_only bind call_]. split; [done |]. intros [key | e0]; [| done].
  cbn [calls_only bind call_]. split; [done |]. intros [e0 |]; [done |].
  cbn [calls_only bind call_]. split; [done |]. intros _.
  apply calls_only_defer; [by split |].
  apply calls_only_bind; [by apply fetchEnrollmentKeyRecord_calls |].
  intros [erec | e0]; [| done].
  by rewrite Hd.
Qed.

Lemma handleEnroll_admitted_never_panics (r : Request) :
  never_panics (handleEnroll_admitted r).
Proof.
  unfold handleEnroll_admitted, fetchEnrollmentKeyRecord, _enroll,
    generateAccessApiKey, createFleetAgent.
  walk.
Qed.

End Enroll.

(** The length of the text of a UUID. *)
Lemma string_length_app (s t : string) :
  String.length (s +:+ t) = (String.length s + String.length t)%nat.
Proof.
  induction s as [| a s IH]; [done |].
  change (S (String.length (s +:+ t)) = S (String.length s + String.length t)).
  by rewrite IH.
Qed.

Lemma string_app_inj (s1 s2 t1 t2 : string) :
  String.length s1 = String.length s2 ->
  s1 +:+ t1 = s2 +:+ t2 -> s1 = s2 /\ t1 = t2.
Proof.
  revert s2. induction s1 as [| a s1 IH]; intros [| b s2] Hlen Heq; try done.
  change (String a (s1 +:+ t1) = String b (s2 +:+ t2)) in Heq.
  injection Hlen as Hlen. injection Heq as -> Heq.
  by destruct (IH s2 Hlen Heq) as [-> ->].
Qed.

Lemma length_hex_encode (bs : list byte) :
  String.length (hex_encode bs) = (2 * length bs)%nat.
Proof. induction bs as [| b bs IH]; [done |]. cbn [hex_encode String.length length]. lia. Qed.

(** The text of a UUID of sixteen bytes has thirty-six characters. *)
Lemma length_uuid_String (u : UUID) :
  length u = 16%nat -> String.length (uuid_String u) = 36%nat.
Proof.
  intros Hu. unfold uuid_String.
  rewrite !string_length_app, !length_hex_encode, !length_take, !length_drop, Hu.
  reflexivity.
Qed.

Section EnrollClaims.
Context `{RT : Runtime}.
Variable H : handler.

(** C3, amended.  For a request with an empty shared id, when the UUID
    generator and the credential issuer succeed.  If the local metadata of
    the request is patched, the agent record encodes and the store's create
    succeeds, [_enroll] returns a response whose item id is the text of the
    UUID generated in this call, with status "online" and action "created",
    with the policy id of the enrollment credential and the type of the
    request.  The id comes from the generator alone: it has 36 characters
    when the UUID has its sixteen bytes, so it differs from every credential
    id that is not a text of 36 characters.  If the patch of the local
    metadata fails (the blob is a JSON value other than an object or [null],
    or is not JSON), [_enroll] returns the error of the patch after the
    access credential has been minted, although every collaborator has
    succeeded.  Of the enrollment credential [_enroll] reads the policy id
    and nothing else: it does not compare the generated id with the
    credential id, and two credentials with the same policy id give the same
    program.  The claim's conditions on the request type and on the
    credential being active are checked before [_enroll] is called and are
    not needed here. *)
Theorem _enroll_success (s : state H) (req : EnrollRequest) (erec : EnrollmentApiKey)
    (u : UUID) (key : ApiKey) :
  let now := ask H TimeNow s in
  let s1 := next H TimeNow s in
  let s2 := next H UuidNewV4 s1 in
  let agentId := uuid_String u in
  let issue := ApikeyCreate agentId "" (bytes_of kFleetAccessRolesJSON)
                 (apikey_NewMetadata agentId TypeAccess) in
  let s3 := next H issue s2 in
  let minted := [Ev TimeNow now; Ev UuidNewV4 (Ok u); Ev issue (Ok key)] in
  er_SharedId req = "" ->
  ask H UuidNewV4 s1 = Ok u ->
  ask H issue s2 = Ok key ->
  (* the patch, the encoding and the create succeed *)
  (forall localMeta data created,
     updateLocalMetaAgentId (em_Local (er_Meta req)) agentId = Ok localMeta ->
     json_Marshal_Agent (agentData_of req erec now localMeta key) = Ok data ->
     let create := BulkCreate FleetAgents agentId data true in
     let s4 := next H create s3 in
     let warm := CacheSetApiKey key kCacheAccessInitTTL in
     ask H create s3 = Ok created ->
     exists resp,
       run H (_enroll req erec) s =
         (Returned (Ok resp), next H warm s4,
          minted ++ [Ev create (Ok created); Ev warm (ask H warm s4)]) /\
       eri_ID (resp_Item resp) = agentId /\
       eri_Status (resp_Item resp) = "online" /\
       resp_Action resp = "created" /\
       eri_PolicyId (resp_Item resp) = eak_PolicyId erec /\
       eri_Type (resp_Item resp) = er_Type req /\
       (length u = 16%nat ->
        String.length (eri_ID (resp_Item resp)) = 36%nat
        /\ (String.length (eak_ApiKeyId erec) <> 36%nat ->
            eri_ID (resp_Item resp) <> eak_ApiKeyId erec)))
  /\
  (* the patch fails *)
  (forall e,
     updateLocalMetaAgentId (em_Local (er_Meta req)) agentId = Err e ->
     run H (_enroll req erec) s = (Returned (Err e), s3, minted))
  /\
  (* the credential id is not read *)
  (forall erec',
     eak_PolicyId erec' = eak_PolicyId erec ->
     _enroll req erec' = _enroll req erec).
Proof.
  intros now s1 s2 agentId issue s3 minted Hshared Hu Hkey.
  split; [| split].
  - intros localMeta data created Hmeta Hdata create s4 warm Hcreate.
    exists (resp_of agentId (agentData_of req erec now localMeta key) key).
    split; [| do 5 (split; [reflexivity |])].
    + unfold _enroll. rewrite decide_False by (intros Hne; by apply Hne).
      run_step. fold now s1. rewrite Hu.
      unfold generateAccessApiKey. run_step. fold agentId issue s2. rewrite Hkey.
      run_step. rewrite Hmeta. unfold createFleetAgent.
      rewrite Hdata. run_step. fold s3 create. rewrite Hcreate.
      run_step. by fold s4 warm.
    + intros Hlen. cbn [resp_of resp_Item eri_ID].
      pose proof (length_uuid_String u Hlen) as H36. fold agentId in H36.
      split; [exact H36 |]. intros Hne Heq. apply Hne. by rewrite <- Heq.
  - intros e Hmeta.
    unfold _enroll. rewrite decide_False by (intros Hne; by apply Hne).
    run_step. fold now s1. rewrite Hu.
    unfold generateAccessApiKey. run_step. fold agentId issue s2. rewrite Hkey.
    run_step. by rewrite Hmeta.
  - intros erec' Hpol. unfold _enroll, agentData_of. by rewrite Hpol.
Qed.

(** C4, as the code behaves.  In the response of every successful
    enrollment the local metadata is the patched blob of the request, and the
    user-provided metadata is [nil], whatever blob the request carried: the
    agent literal never receives [req.Meta.User]. *)
Theorem _enroll_response_metadata (s s' : state H) (req : EnrollRequest)
    (erec : EnrollmentApiKey) (resp : EnrollResponse) (tr : list event) :
  run H (_enroll req erec) s = (Returned (Ok resp), s', tr) ->
  eri_UserMeta (resp_Item resp) = None /\
  updateLocalMetaAgentId (em_Local (er_Meta req)) (eri_ID (resp_Item resp))
    = Ok (eri_LocalMeta (resp_Item resp)).
Proof.
  unfold _enroll. destruct (decide (er_SharedId req <> "")); [done |].
  run_step.
  destruct (ask H UuidNewV4 (next H TimeNow s)) as [u | e]; [| done].
  unfold generateAccessApiKey. run_step.
  match goal with |- context [match ?x with _ => _ end] => destruct x as [key | e] end;
    [| done].
  run_step.
  destruct (updateLocalMetaAgentId (em_Local (er_Meta req)) (uuid_String u))
    as [localMeta | e] eqn:Hmeta; [| done].
  unfold createFleetAgent.
  destruct (json_Marshal_Agent _) as [data | e]; [| done].
  run_step.
  match goal with |- context [err_of ?x] => destruct x as [created | e] end;
    [| done].
  run_step. intros [= <- _ _]. by split.
Qed.

End EnrollClaims.

(* ------------------------------------------------------------------ *)
(** *** The local-metadata patch *)

Lemma path_lookup_agent_id (m : gmap string value) (old : value) :
  path_lookup agent_id_path (VMap m) = Some old <->
  exists sm am,
    m !! "elastic" = Some (VMap sm) /\ sm !! "agent" = Some (VMap am) /\
    am !! "id" = Some old.
Proof.
  unfold agent_id_path. cbn [path_lookup]. split.
  - destruct (m !! "elastic") as [[| | | | | sm] |] eqn:Hm; try done.
    destruct (sm !! "agent") as [[| | | | | am] |] eqn:Hsm; try done.
    destruct (am !! "id") as [v |] eqn:Hid; [| done].
    intros [= <-]. exists sm, am. by repeat split.
  - intros (sm & am & -> & -> & ->). done.
Qed.

(** Off the patched path nothing changes. *)
Lemma set_agent_id_frame (m sm am : gmap string value) (agentId : string) (p : list string) :
  m !! "elastic" = Some (VMap sm) ->
  sm !! "agent" = Some (VMap am) ->
  incomparable p agent_id_path ->
  path_lookup p (VMap (set_agent_id m sm am agentId)) = path_lookup p (VMap m).
Proof.
  intros Hm Hsm [Hp Hq]. unfold set_agent_id, agent_id_path in *.
  destruct p as [| k1 p]; [destruct Hp; apply prefix_nil |].
  cbn [path_lookup].
  destruct (decide (k1 = "elastic")) as [-> | Hk1];
    [| by rewrite lookup_insert_ne].
  rewrite lookup_insert_eq, Hm.
  destruct p as [| k2 p]; [destruct Hp; apply prefix_cons, prefix_nil |].
  cbn [path_lookup].
  destruct (decide (k2 = "agent")) as [-> | Hk2];
    [| by rewrite lookup_insert_ne].
  rewrite lookup_insert_eq, Hsm.
  destruct p as [| k3 p];
    [destruct Hp; apply prefix_cons, prefix_cons, prefix_nil |].
  cbn [path_lookup].
  destruct (decide (k3 = "id")) as [-> | Hk3];
    [| by rewrite lookup_insert_ne].
  destruct Hq. do 3 apply prefix_cons. apply prefix_nil.
Qed.

Section LocalMeta.
Context `{RT : Runtime}.

(** C6, amended.  [updateLocalMetaAgentId] on a [nil] blob returns [nil] and
    no error.  On a blob that decodes as a JSON object (or [null]): when the
    object has the nested path elastic.agent.id, the output is the encoding
    of the object in which that one member holds the new agent id, every
    value off that path is the same and the objects along the path keep their
    keys; when it lacks the path (a missing key, or a node on the way that is
    not an object), the output is the input blob itself.  On a blob that does
    not decode, or whose JSON value is neither an object nor [null], it
    returns the decoder's error and no blob. *)
Theorem updateLocalMetaAgentId_cases (agentId : string) :
  updateLocalMetaAgentId None agentId = Ok None
  /\
  (forall d m sm am old,
     json_Unmarshal_map d = Ok m ->
     m !! "elastic" = Some (VMap sm) ->
     sm !! "agent" = Some (VMap am) ->
     am !! "id" = Some old ->
     let m' := set_agent_id m sm am agentId in
     updateLocalMetaAgentId (Some d) agentId =
       match json_Marshal (VMap m') with
       | Ok out => Ok (Some out)
       | Err e => Err (ErrJSON e)
       end
     /\ path_lookup agent_id_path (VMap m') = Some (VString agentId)
     /\ (forall p, incomparable p agent_id_path ->
           path_lookup p (VMap m') = path_lookup p (VMap m))
     /\ dom m' = dom m
     /\ (exists sm', m' !! "elastic" = Some (VMap sm') /\ dom sm' = dom sm
         /\ exists am', sm' !! "agent" = Some (VMap am') /\ dom am' = dom am))
  /\
  (forall d m,
     json_Unmarshal_map d = Ok m ->
     path_lookup agent_id_path (VMap m) = None ->
     updateLocalMetaAgentId (Some d) agentId = Ok (Some d))
  /\
  (forall d e,
     json_Unmarshal_map d = Err e ->
     updateLocalMetaAgentId (Some d) agentId = Err (ErrJSON e))
  /\
  (forall d v,
     json_Unmarshal d = Ok v ->
     (forall m, v <> VMap m) -> v <> VNil ->
     json_Unmarshal_map d =
       Err (UnmarshalTypeError (json_kind v) "map[string]interface {}")).
Proof.
  split; [done |]. split; [| split; [| split]].
  - intros d m sm am old Hd Hm Hsm Ham m'. split; [| split; [| split; [| split]]].
    + unfold updateLocalMetaAgentId. by rewrite Hd, Hm, Hsm, Ham.
    + unfold m', set_agent_id, agent_id_path. cbn [path_lookup].
      by rewrite !lookup_insert_eq.
    + intros p Hp. by apply set_agent_id_frame.
    + unfold m', set_agent_id. apply set_eq. intros k.
      rewrite dom_insert, elem_of_union, elem_of_singleton, !elem_of_dom.
      split; [| by right]. intros [-> | Hk]; [by rewrite Hm | done].
    + eexists. split; [apply lookup_insert_eq |]. split.
      * apply set_eq. intros k.
        rewrite dom_insert, elem_of_union, elem_of_singleton, !elem_of_dom.
        split; [| by right]. intros [-> | Hk]; [by rewrite Hsm | done].
      * eexists. split; [apply lookup_insert_eq |].
        apply set_eq. intros k.
        rewrite dom_insert, elem_of_union, elem_of_singleton, !elem_of_dom.
        split; [| by right]. intros [-> | Hk]; [by rewrite Ham | done].
  - intros d m Hd Hpath. unfold updateLocalMetaAgentId. rewrite Hd.
    unfold agent_id_path in Hpath. cbn [path_lookup] in Hpath.
    destruct (m !! "elastic") as [[| | | | | sm] |]; try done.
    destruct (sm !! "agent") as [[| | | | | am] |]; try done.
    by destruct (am !! "id").
  - intros d e Hd. unfold updateLocalMetaAgentId. by rewrite Hd.
  - intros d v Hd Hmap Hnil. unfold json_Unmarshal_map. rewrite Hd.
    destruct v; try done. by destruct (Hmap m).
Qed.

End LocalMeta.

(** C6, the claim as stated fails: the two-byte blob [[]] is JSON and lacks
    the nested path, and [updateLocalMetaAgentId] answers the decoder's type
    error, not the blob. *)
Lemma updateLocalMetaAgentId_array_blob :
  json_Unmarshal (bytes_of "[]") = Ok (VSlice []) /\
  path_lookup agent_id_path (VSlice []) = None /\
  updateLocalMetaAgentId (Some (bytes_of "[]")) "NEW" =
    Err (ErrJSON (UnmarshalTypeError "array" "map[string]interface {}")) /\
  updateLocalMetaAgentId (Some (bytes_of "[]")) "NEW" <> Ok (Some (bytes_of "[]")).
Proof. repeat split; try by vm_compute. Qed.

(* ------------------------------------------------------------------ *)
(** *** Decoding the request, admission *)

Lemma valid_enroll_type_iff (t : string) :
  valid_enroll_type t = true <->
  t = "EPHEMERAL" \/ t = "PERMANENT" \/ t = "TEMPORARY".
Proof.
  unfold valid_enroll_type. rewrite !orb_true_iff, !bool_decide_eq_true. tauto.
Qed.

Section Decode.
Context `{RT : Runtime}.
Variable H : handler.

(** C5, amended.  [decodeEnrollRequest] asks the decoder for one value,
    [json.NewDecoder(data).Decode(&req)], and looks at nothing else of the
    body.  A body that the decoder rejects fails with the decoder's own
    error, which is not the "unknown enroll type" error.  A body from which
    the decoder reads a request whose type is not exactly one of EPHEMERAL,
    PERMANENT, TEMPORARY fails with the "unknown enroll type" error.  In both
    cases [handleEnroll] mints no identity and writes nothing to the store,
    whatever its collaborators answer.  A body from which the decoder reads a
    request with one of the three types is accepted as that request; since the
    decoder reads the first JSON value of the body and not what follows it,
    this includes bodies that are not JSON texts. *)
Theorem decodeEnrollRequest_failures :
  (forall body req,
     json_Decode_EnrollRequest body = Ok req ->
     ~ (er_Type req = "EPHEMERAL" \/ er_Type req = "PERMANENT"
        \/ er_Type req = "TEMPORARY") ->
     decodeEnrollRequest body = Err ErrUnknownEnrollType)
  /\
  (forall body e,
     json_Decode_EnrollRequest body = Err e ->
     decodeEnrollRequest body = Err (ErrJSON e)
     /\ decodeEnrollRequest body <> Err ErrUnknownEnrollType)
  /\
  (forall (s : state H) r e,
     decodeEnrollRequest (req_Body r) = Err e ->
     none_of mint (trace_of (run H (handleEnroll r) s))
     /\ none_of store_write (trace_of (run H (handleEnroll r) s)))
  /\
  (forall body req,
     json_Decode_EnrollRequest body = Ok req ->
     er_Type req = "EPHEMERAL" \/ er_Type req = "PERMANENT"
     \/ er_Type req = "TEMPORARY" ->
     decodeEnrollRequest body = Ok req).
Proof.
  split; [| split; [| split]].
  - intros body req Hd Ht. unfold decodeEnrollRequest. rewrite Hd.
    destruct (valid_enroll_type (er_Type req)) eqn:Hv; [| done].
    by apply valid_enroll_type_iff in Hv.
  - intros body e Hd. unfold decodeEnrollRequest. by rewrite Hd.
  - intros s r e Hd.
    pose proof (calls_only_trace _ H _ s (handleEnroll_undecoded_calls r e Hd)) as Ht.
    unfold none_of. split; eapply Forall_impl; try exact Ht; by intros ? [? ?].
  - intros body req Hd Ht. unfold decodeEnrollRequest. rewrite Hd.
    apply valid_enroll_type_iff in Ht. by rewrite Ht.
Qed.

(** C8.  [handleEnroll] calls the limiter first.  When the acquisition
    fails, it returns that error and has made no other call.  When it
    succeeds, whatever the other collaborators answer, the handler returns
    (it never panics), the trace is the acquisition, then the calls of the
    body, none of which is on the limiter, then one release of the acquired
    slot: the slot is released exactly once, last. *)
Theorem handleEnroll_limiter (s : state H) (r : Request) :
  let s1 := next H LimitAcquire s in
  (forall e,
     ask H LimitAcquire s = Err e ->
     run H (handleEnroll r) s = (Returned (Err e), s1, [Ev LimitAcquire (Err e)]))
  /\
  (forall t,
     ask H LimitAcquire s = Ok t ->
     exists res s2 tr,
       run H (handleEnroll_admitted r) s1 = (Returned res, s2, tr)
       /\ run H (handleEnroll r) s =
            (Returned res, next H (LimitRelease t) s2,
             Ev LimitAcquire (Ok t) :: tr ++ [Ev (LimitRelease t) tt])
       /\ none_of limiter_call tr
       /\ count (release_of t)
            (Ev LimitAcquire (Ok t) :: tr ++ [Ev (LimitRelease t) tt]) = 1%nat).
Proof.
  intros s1. split.
  - intros e He. unfold handleEnroll. run_step. fold s1. by rewrite He.
  - intros t Ht.
    destruct (never_panics_run H _ s1 (handleEnroll_admitted_never_panics r))
      as [res Hres].
    pose proof (calls_only_trace _ H _ s1 (handleEnroll_admitted_no_limiter r)) as Htr.
    destruct (run H (handleEnroll_admitted r) s1) as [[o s2] tr] eqn:Hrun.
    unfold outcome_of, trace_of in *. simpl in Hres, Htr. subst o.
    exists res, s2, tr. split; [done |]. split; [| split].
    + unfold handleEnroll. run_step. fold s1. rewrite Ht.
      rewrite run_defer_call, Hrun.
      by destruct (ask H (LimitRelease t) s2).
    + done.
    + assert (Hnone : none_of (release_of t) tr).
      { eapply Forall_impl; [exact Htr |]. intros [c a]. simpl.
        by destruct c. }
      change (Ev LimitAcquire (Ok t) :: tr ++ [Ev (LimitRelease t) tt])
        with ([Ev LimitAcquire (Ok t)] ++ tr ++ [Ev (LimitRelease t) tt]).
      rewrite !count_app, (count_none_of _ _ Hnone).
      unfold count. simpl. rewrite !filter_cons, filter_nil. simpl.
      rewrite bool_decide_eq_true_2 by done.
      by rewrite decide_True.
Qed.

End Decode.

(** C5, the claim as stated fails: the one-byte body is malformed JSON, and
    decoding it fails with the decoder's error, not with the "unknown enroll
    type" error. *)
Lemma decodeEnrollRequest_malformed_body :
  json_Decode_EnrollRequest (bytes_of "{") = Err UnexpectedEOF /\
  decodeEnrollRequest (bytes_of "{") = Err (ErrJSON UnexpectedEOF) /\
  decodeEnrollRequest (bytes_of "{") <> Err ErrUnknownEnrollType.
Proof. repeat split; by vm_compute. Qed.

(** C5 at work.  The example body followed by two closing braces is not a
    JSON text: [json.Unmarshal] rejects it.  The decoder of the handler reads
    the request at its front, the request is accepted, and the handler goes
    on to mint an identity. *)
Lemma decodeEnrollRequest_trailing_bytes :
  json_Unmarshal (req_Body Ref.trailing_request)
    = Err (SyntaxError "invalid character after top-level value")
  /\ decodeEnrollRequest (req_Body Ref.trailing_request) = Ok Ref.example_req
  /\ count mint (trace_of (run Ref.collaborators (handleEnroll Ref.trailing_request)
                             Ref.enroll_world)) = 2%nat.
Proof.
  split; [vm_compute; reflexivity |]. split; [| vm_compute; reflexivity].
  destruct (decodeEnrollRequest_failures Ref.collaborators) as (_ & _ & _ & Hok).
  apply Hok; [vm_compute; reflexivity | right; left; reflexivity].
Defined.

(* ------------------------------------------------------------------ *)
(** *** Resolving the enrollment credential *)

Section Fetch.
Variable H : handler.

Lemma fetch_hit (s : state H) (id : string) (key : EnrollmentApiKey) :
  let get := CacheGetEnrollmentApiKey id in
  ask H get s = Some key ->
  run H (fetchEnrollmentKeyRecord id) s =
    (Returned (Ok key), next H get s, [Ev get (Some key)]).
Proof.
  cbv zeta. intros Hg. unfold fetchEnrollmentKeyRecord. run_step. by rewrite Hg.
Qed.

Lemma fetch_miss_error (s : state H) (id : string) (e : error) :
  let get := CacheGetEnrollmentApiKey id in
  let find := FindEnrollmentAPIKey id in
  ask H get s = None ->
  ask H find (next H get s) = Err e ->
  run H (fetchEnrollmentKeyRecord id) s =
    (Returned (Err e), next H find (next H get s),
     [Ev get None; Ev find (Err e)]).
Proof.
  cbv zeta. intros Hg Hf. unfold fetchEnrollmentKeyRecord. run_step.
  rewrite Hg. run_step. by rewrite Hf.
Qed.

Lemma fetch_miss_inactive (s : state H) (id : string) (rec : EnrollmentApiKey) :
  let get := CacheGetEnrollmentApiKey id in
  let find := FindEnrollmentAPIKey id in
  ask H get s = None ->
  ask H find (next H get s) = Ok rec ->
  eak_Active rec = false ->
  run H (fetchEnrollmentKeyRecord id) s =
    (Returned (Err (ErrNew "record is inactive")), next H find (next H get s),
     [Ev get None; Ev find (Ok rec)]).
Proof.
  cbv zeta. intros Hg Hf Ha. unfold fetchEnrollmentKeyRecord. run_step.
  rewrite Hg. run_step. by rewrite Hf, Ha.
Qed.

Lemma fetch_miss_active (s : state H) (id : string) (rec : EnrollmentApiKey) :
  let get := CacheGetEnrollmentApiKey id in
  let find := FindEnrollmentAPIKey id in
  let set := CacheSetEnrollmentApiKey id rec
               (Z.of_nat (String.length (eak_ApiKey rec))) kCacheEnrollmentTTL in
  ask H get s = None ->
  ask H find (next H get s) = Ok rec ->
  eak_Active rec = true ->
  run H (fetchEnrollmentKeyRecord id) s =
    (Returned (Ok rec), next H set (next H find (next H get s)),
     [Ev get None; Ev find (Ok rec); Ev set tt]).
Proof.
  cbv zeta. intros Hg Hf Ha. unfold fetchEnrollmentKeyRecord. run_step.
  rewrite Hg. run_step. rewrite Hf, Ha. cbn [negb]. run_step.
  match goal with |- context [Ev _ ?a :: []] => by destruct a end.
Qed.

End Fetch.

(** The reference cache: what a resolution leaves, and what a later one
    finds. *)
Lemma ref_fetch_miss (w : Ref.World) (id : string) (rec : EnrollmentApiKey) :
  Ref.cache_get w id = None ->
  Ref.enrollment_keys w !! id = Some rec ->
  eak_Active rec = true ->
  run Ref.collaborators (fetchEnrollmentKeyRecord id) w =
    (Returned (Ok rec),
     Ref.set_cached_enrollment_keys w
       (<[id := (rec, Z.of_nat (String.length (eak_ApiKey rec)),
                 (Ref.clock w + kCacheEnrollmentTTL)%Z)]>
          (Ref.cached_enrollment_keys w)),
     [Ev (CacheGetEnrollmentApiKey id) None;
      Ev (FindEnrollmentAPIKey id) (Ok rec);
      Ev (CacheSetEnrollmentApiKey id rec
            (Z.of_nat (String.length (eak_ApiKey rec))) kCacheEnrollmentTTL) tt]).
Proof.
  intros Hc Hk Ha.
  rewrite (fetch_miss_active Ref.collaborators w id rec); try done.
  - unfold ask, next. simpl. by rewrite Hk.
  - unfold ask, next. simpl. by rewrite Hk.
Qed.

Lemma ref_cache_get_later (w : Ref.World) (id : string) (rec : EnrollmentApiKey)
    (cost expiry now : Z) :
  Ref.cache_get
    (Ref.set_clock
       (Ref.set_cached_enrollment_keys w
          (<[id := (rec, cost, expiry)]> (Ref.cached_enrollment_keys w))) now) id =
  if (now <? expiry)%Z then Some rec else None.
Proof. unfold Ref.cache_get. simpl. by rewrite lookup_insert_eq. Qed.

(** C7.  [fetchEnrollmentKeyRecord] asks the cache first.  On a hit it
    returns the cached record and makes no other call, so no store read.  On
    a miss it reads the record from the store: an error of the read is
    returned; an inactive record fails with "record is inactive" and nothing
    is cached; an active record is cached with the 30 s TTL and a cost equal
    to the length of the credential's value, then returned.  Hence, against a
    cache that serves an entry until its TTL has passed, a second resolution
    of the same id within the TTL makes no store read, and one after the TTL
    makes one. *)
Theorem fetchEnrollmentKeyRecord_cache :
  (forall (H : handler) (s : state H) (id : string),
     let get := CacheGetEnrollmentApiKey id in
     let find := FindEnrollmentAPIKey id in
     let s1 := next H get s in
     let s2 := next H find s1 in
     (forall key,
        ask H get s = Some key ->
        run H (fetchEnrollmentKeyRecord id) s =
          (Returned (Ok key), s1, [Ev get (Some key)]))
     /\
     (forall e,
        ask H get s = None -> ask H find s1 = Err e ->
        run H (fetchEnrollmentKeyRecord id) s =
          (Returned (Err e), s2, [Ev get None; Ev find (Err e)]))
     /\
     (forall rec,
        ask H get s = None -> ask H find s1 = Ok rec -> eak_Active rec = false ->
        run H (fetchEnrollmentKeyRecord id) s =
          (Returned (Err (ErrNew "record is inactive")), s2,
           [Ev get None; Ev find (Ok rec)]))
     /\
     (forall rec,
        ask H get s = None -> ask H find s1 = Ok rec -> eak_Active rec = true ->
        let set := CacheSetEnrollmentApiKey id rec
                     (Z.of_nat (String.length (eak_ApiKey rec))) (Second * 30)%Z in
        run H (fetchEnrollmentKeyRecord id) s =
          (Returned (Ok rec), next H set s2,
           [Ev get None; Ev find (Ok rec); Ev set tt])))
  /\
  (forall (w : Ref.World) (id : string) (rec : EnrollmentApiKey) (dt : Z),
     Ref.cache_get w id = None ->
     Ref.enrollment_keys w !! id = Some rec ->
     eak_Active rec = true ->
     let r1 := run Ref.collaborators (fetchEnrollmentKeyRecord id) w in
     let later := Ref.set_clock r1.1.2 (Ref.clock w + dt) in
     let r2 := run Ref.collaborators (fetchEnrollmentKeyRecord id) later in
     outcome_of r1 = Returned (Ok rec)
     /\ count store_read (trace_of r1) = 1%nat
     /\ ((0 <= dt < Second * 30)%Z ->
         outcome_of r2 = Returned (Ok rec)
         /\ count store_read (trace_of r2) = 0%nat)
     /\ ((Second * 30 <= dt)%Z ->
         outcome_of r2 = Returned (Ok rec)
         /\ count store_read (trace_of r2) = 1%nat)).
Proof.
  split.
  - intros H s id get find s1 s2. repeat split.
    + intros key Hg. by apply fetch_hit.
    + intros e Hg Hf. by apply fetch_miss_error.
    + intros rec Hg Hf Ha. by apply fetch_miss_inactive.
    + intros rec Hg Hf Ha. by apply fetch_miss_active.
  - intros w id rec dt Hc Hk Ha. rewrite (ref_fetch_miss w id rec) by done.
    cbn [fst snd]. split; [done |]. split; [done |].
    split; intros Hdt.
    + rewrite (fetch_hit Ref.collaborators _ id rec).
      * done.
      * unfold ask. simpl. rewrite ref_cache_get_later.
        unfold kCacheEnrollmentTTL.
        destruct (Z.ltb_spec (Ref.clock w + dt) (Ref.clock w + Second * 30)); [done | lia].
    + rewrite (ref_fetch_miss _ id rec); [done | | done | done].
      rewrite ref_cache_get_later. unfold kCacheEnrollmentTTL.
      destruct (Z.ltb_spec (Ref.clock w + dt) (Ref.clock w + Second * 30)); [lia | done].
Qed.

(** C10.  A cache hit is returned as it is, whether or not the cached record
    is active.  The "record is inactive" failure is returned only after a
    cache miss and a store read.  Hence, against the reference cache, a
    credential that the store deactivates after it has been cached is still
    returned until its entry expires, and is refused afterwards. *)
Theorem fetchEnrollmentKeyRecord_stale_hit :
  (forall (H : handler) (s : state H) (id : string) (key : EnrollmentApiKey),
     let get := CacheGetEnrollmentApiKey id in
     ask H get s = Some key ->
     run H (fetchEnrollmentKeyRecord id) s =
       (Returned (Ok key), next H get s, [Ev get (Some key)]))
  /\
  (forall (H : handler) (s : state H) (id : string),
     outcome_of (run H (fetchEnrollmentKeyRecord id) s)
       = Returned (Err (ErrNew "record is inactive")) ->
     ask H (CacheGetEnrollmentApiKey id) s = None
     /\ count store_read (trace_of (run H (fetchEnrollmentKeyRecord id) s)) = 1%nat)
  /\
  (forall (w : Ref.World) (id : string) (rec : EnrollmentApiKey) (dt : Z),
     Ref.cache_get w id = None ->
     Ref.enrollment_keys w !! id = Some rec ->
     eak_Active rec = true ->
     let r1 := run Ref.collaborators (fetchEnrollmentKeyRecord id) w in
     let inactive := {| eak_ApiKeyId := eak_ApiKeyId rec; eak_ApiKey := eak_ApiKey rec;
                        eak_PolicyId := eak_PolicyId rec; eak_Active := false |} in
     let deactivated :=
       Ref.set_enrollment_keys r1.1.2 (<[id := inactive]> (Ref.enrollment_keys w)) in
     let later := Ref.set_clock deactivated (Ref.clock w + dt) in
     let r2 := run Ref.collaborators (fetchEnrollmentKeyRecord id) later in
     ((0 <= dt < Second * 30)%Z -> outcome_of r2 = Returned (Ok rec))
     /\ ((Second * 30 <= dt)%Z ->
         outcome_of r2 = Returned (Err (ErrNew "record is inactive")))).
Proof.
  split; [| split].
  - intros H s id key get Hg. by apply fetch_hit.
  - intros H s id.
    destruct (ask H (CacheGetEnrollmentApiKey id) s) as [key |] eqn:Hg.
    { by rewrite (fetch_hit H s id key). }
    destruct (ask H (FindEnrollmentAPIKey id) (next H (CacheGetEnrollmentApiKey id) s))
      as [rec | e] eqn:Hf.
    + destruct (eak_Active rec) eqn:Ha.
      * by rewrite (fetch_miss_active H s id rec).
      * by rewrite (fetch_miss_inactive H s id rec).
    + by rewrite (fetch_miss_error H s id e).
  - intros w id rec dt Hc Hk Ha. rewrite (ref_fetch_miss w id rec) by done.
    cbn [fst snd]. split; intros Hdt.
    + rewrite (fetch_hit Ref.collaborators _ id rec); [done |].
      unfold ask. simpl. unfold Ref.cache_get. simpl. rewrite lookup_insert_eq.
      unfold kCacheEnrollmentTTL.
      destruct (Z.ltb_spec (Ref.clock w + dt) (Ref.clock w + Second * 30)); [done | lia].
    + erewrite (fetch_miss_inactive Ref.collaborators _ id); [done | | | ].
      * unfold ask. simpl. unfold Ref.cache_get. simpl. rewrite lookup_insert_eq.
        unfold kCacheEnrollmentTTL.
        destruct (Z.ltb_spec (Ref.clock w + dt) (Ref.clock w + Second * 30)); [lia | done].
      * unfold ask, next. simpl. by rewrite lookup_insert_eq.
      * done.
Qed.

(* ================================================================== *)
(** ** The theorems at work on the reference collaborators *)
(* ================================================================== *)



(** C2 at work.  On a store without a lease, srvA's claim creates the
    lease; srvB's claim one second later overwrites it. *)
Lemma TakePolicyLeadership_example :
  Ref.lease Ref.empty_world "P" = None
  /\ outcome_of (run Ref.collaborators (TakePolicyLeadership "P" "srvA" "v1") Ref.empty_world)
     = Returned None
  /\ Ref.lease Ref.srvA_world "P" =
       Some (Ok {| pl_Server := Some {| sm_Id := "srvA"; sm_Version := "v1" |};
                   pl_Time := Some {| unix_nano := Ref.clock Ref.empty_world;
                                      in_utc := true |} |})
  /\ Ref.lease Ref.srvB_world "P" =
       Some (Ok {| pl_Server := Some {| sm_Id := "srvB"; sm_Version := "v1" |};
                   pl_Time := Some {| unix_nano := (Ref.clock Ref.empty_world + Second)%Z;
                                      in_utc := true |} |}).
Proof.
  destruct (TakePolicyLeadership_cases Ref.collaborators Ref.empty_world
              "P" "srvA" "v1") as (Hcreate & _).
  destruct (TakePolicyLeadership_cases Ref.collaborators
              (Ref.set_clock Ref.srvA_world (Ref.clock Ref.srvA_world + 1000000000)%Z)
              "P" "srvB" "v1") as (_ & Hupdate & _).
  split; [reflexivity |]. split; [| split].
  - erewrite Hcreate; [reflexivity | reflexivity | vm_compute; reflexivity].
  - unfold Ref.srvA_world.
    erewrite Hcreate; [| reflexivity | vm_compute; reflexivity].
    vm_compute. reflexivity.
  - unfold Ref.srvB_world.
    erewrite Hupdate; [| reflexivity | reflexivity | vm_compute; reflexivity].
    vm_compute. reflexivity.
Defined.

(** C9 at work.  The stored lease document [{}] has no server: the release
    panics, where [TakePolicyLeadership] on the same store returns. *)
Lemma ReleasePolicyLeadership_nil_server_example :
  Ref.lease Ref.serverless_world "P" = Some (Ok PolicyLeader_zero)
  /\ outcome_of (run Ref.collaborators
                   (ReleasePolicyLeadership "P" "srvA" (Second * 30)%Z) Ref.serverless_world)
     = Panicked "invalid memory address or nil pointer dereference"
  /\ outcome_of (run Ref.collaborators
                   (TakePolicyLeadership "P" "srvA" "v1") Ref.serverless_world)
     = Returned None.
Proof.
  split; [reflexivity |]. split; [| vm_compute; reflexivity].
  erewrite (ReleasePolicyLeadership_nil_server_panics Ref.collaborators
              Ref.serverless_world "P" "srvA" (Second * 30)%Z);
    reflexivity.
Defined.

(** C3, the claim as stated fails.  The request has a valid type, an empty
    shared id and an active credential, and every collaborator that is called
    succeeds; its local metadata is the JSON array [[]].  The body is decoded
    and accepted, the access credential is minted, and [_enroll] returns the
    decoder's type error and no response.  And when the generator answers the
    UUID whose text is the id of the enrollment credential, the enrollment
    succeeds with that id as item id. *)
Lemma _enroll_array_local_metadata :
  decodeEnrollRequest (req_Body Ref.array_metadata_request) = Ok Ref.array_metadata_req
  /\ eak_Active Ref.example_erec = true
  /\ run Ref.collaborators (_enroll Ref.array_metadata_req Ref.example_erec)
       Ref.enroll_world
     = (Returned (Err (ErrJSON (UnmarshalTypeError "array" "map[string]interface {}"))),
        Ref.set_issued (Ref.set_uuids Ref.enroll_world [])
          [{| ak_Id := "key-1b9c327a-c93a-4aef-b67f-effbef54d836"; ak_Key := "secret" |}],
        [Ev TimeNow {| unix_nano := Ref.clock Ref.enroll_world; in_utc := false |};
         Ev UuidNewV4 (Ok Ref.example_uuid);
         Ev (ApikeyCreate "1b9c327a-c93a-4aef-b67f-effbef54d836" ""
               (bytes_of kFleetAccessRolesJSON)
               (apikey_NewMetadata "1b9c327a-c93a-4aef-b67f-effbef54d836" TypeAccess))
            (Ok {| ak_Id := "key-1b9c327a-c93a-4aef-b67f-effbef54d836";
                   ak_Key := "secret" |})])
  /\ exists resp,
       outcome_of (run Ref.collaborators (_enroll Ref.example_req Ref.colliding_erec)
                     Ref.enroll_world) = Returned (Ok resp)
       /\ eri_ID (resp_Item resp) = eak_ApiKeyId Ref.colliding_erec.
Proof.
  split; [vm_compute; reflexivity |]. split; [reflexivity |].
  split; [vm_compute; reflexivity |].
  eexists. split; vm_compute; reflexivity.
Qed.

(** C3 at work: the example request, on a credential whose id has three
    characters. *)
Lemma _enroll_success_example :
  decodeEnrollRequest Ref.example_body = Ok Ref.example_req
  /\ exists resp,
       outcome_of (run Ref.collaborators (_enroll Ref.example_req Ref.example_erec)
                     Ref.enroll_world)
         = Returned (Ok resp)
       /\ eri_ID (resp_Item resp) = "1b9c327a-c93a-4aef-b67f-effbef54d836"
       /\ eri_ID (resp_Item resp) <> eak_ApiKeyId Ref.example_erec
       /\ eri_Status (resp_Item resp) = "online"
       /\ resp_Action resp = "created"
       /\ eri_PolicyId (resp_Item resp) = "policy-1"
       /\ eri_Type (resp_Item resp) = "PERMANENT".
Proof.
  split; [vm_compute; reflexivity |].
  edestruct (_enroll_success Ref.collaborators Ref.enroll_world
               Ref.example_req Ref.example_erec) as (Hok & _ & _).
  - reflexivity.
  - vm_compute. reflexivity.
  - vm_compute. reflexivity.
  - edestruct Hok as (resp & Hrun & Hid & Hst & Hact & Hpol & Hty & Hlen).
    + vm_compute. reflexivity.
    + vm_compute. reflexivity.
    + vm_compute. reflexivity.
    + exists resp. rewrite Hrun.
      split; [reflexivity |]. split; [exact Hid |].
      split; [apply Hlen; [reflexivity | vm_compute; discriminate] |].
      split; [exact Hst |]. split; [exact Hact |]. split; [exact Hpol | exact Hty].
Defined.

(** C4 at work.  The request carries user-provided metadata; the response of
    the successful enrollment carries none, and carries the patched local
    metadata. *)
Lemma _enroll_response_metadata_example :
  em_User (er_Meta Ref.example_req) = Some (json_text "{'tag':'blue'}")
  /\ exists resp,
       outcome_of (run Ref.collaborators (_enroll Ref.example_req Ref.example_erec)
                     Ref.enroll_world)
         = Returned (Ok resp)
       /\ eri_UserMeta (resp_Item resp) = None
       /\ eri_LocalMeta (resp_Item resp) =
            Some (json_text
                    ("{'elastic':{'agent':{'id':'1b9c327a-c93a-4aef-b67f-effbef54d836',"
                     +:+ "'snapshot':false}},'host':{'id':'h1'}}")).
Proof.
  split; [reflexivity |].
  edestruct (_enroll_response_metadata Ref.collaborators Ref.enroll_world)
    with (req := Ref.example_req) (erec := Ref.example_erec) as [Huser Hlocal].
  { vm_compute. reflexivity. }
  eexists. split; [vm_compute; reflexivity |]. split; [exact Huser |].
  vm_compute. reflexivity.
Defined.

(** C6 at work: the two blobs of the specification's example. *)
Lemma updateLocalMetaAgentId_example :
  updateLocalMetaAgentId (Some (json_text "{'elastic':{'agent':{'id':'OLD'}}}")) "NEW"
    = Ok (Some (json_text "{'elastic':{'agent':{'id':'NEW'}}}"))
  /\ updateLocalMetaAgentId (Some (json_text "{ 'elastic': {'agent': 'none'} }")) "NEW"
     = Ok (Some (json_text "{ 'elastic': {'agent': 'none'} }")).
Proof.
  destruct (updateLocalMetaAgentId_cases "NEW") as (_ & Hpresent & Habsent & _).
  split.
  - edestruct (Hpresent (json_text "{'elastic':{'agent':{'id':'OLD'}}}"))
      as (Hout & _).
    + vm_compute. reflexivity.
    + vm_compute. reflexivity.
    + vm_compute. reflexivity.
    + vm_compute. reflexivity.
    + rewrite Hout. vm_compute. reflexivity.
  - eapply Habsent; vm_compute; reflexivity.
Defined.

(** C8 at work.  With a free slot the handler holds it during the
    enrollment and gives it back; with no free slot it makes the one call. *)
Lemma handleEnroll_limiter_example :
  (let r := run Ref.collaborators (handleEnroll Ref.example_request) Ref.enroll_world in
   Ref.held r.1.2 = [] /\ count (release_of 0) (trace_of r) = 1%nat)
  /\
  (let full := Ref.set_limiter Ref.enroll_world [7%nat] 8 in
   run Ref.collaborators (handleEnroll Ref.example_request) full
     = (Returned (Err (ErrCollaborator "max limit")), full,
        [Ev LimitAcquire (Err (ErrCollaborator "max limit"))])).
Proof.
  split.
  - destruct (handleEnroll_limiter Ref.collaborators Ref.enroll_world Ref.example_request)
      as [_ Hok].
    destruct (Hok 0%nat) as (res & s2 & tr & Hbody & Hrun & Hnone & Hcount);
      [reflexivity |].
    cbv zeta. rewrite Hrun. split; [| exact Hcount].
    vm_compute in Hbody. injection Hbody as _ <- _. vm_compute. reflexivity.
  - destruct (handleEnroll_limiter Ref.collaborators
                (Ref.set_limiter Ref.enroll_world [7%nat] 8) Ref.example_request)
      as [Hfull _].
    cbv zeta. rewrite (Hfull (ErrCollaborator "max limit")); reflexivity.
Defined.

(* ================================================================== *)
(** ** Further properties of the lease functions *)
(* ================================================================== *)

Lemma calls_at_most_trace {R : Type} (f : call -> bool) (n : nat) (H : handler)
    (p : prog R) (s : state H) :
  calls_at_most f n p -> (count f (trace_of (run H p s)) <= n)%nat.
Proof.
  revert n s. induction p as [a | msg | c k IH]; intros n s; simpl.
  - intros _. unfold count. simpl. lia.
  - intros _. unfold count. simpl. lia.
  - intros Hk. destruct (handle H c s) as [a s1].
    destruct (run H (k a) s1) as [[o s2] tr] eqn:Hrun.
    unfold trace_of, count in *. cbn [snd]. rewrite filter_cons. cbn [projT1 Ev].
    destruct (f c) eqn:Hf.
    + destruct n as [| n']; [done |].
      specialize (IH a n' s1 (Hk a)). rewrite Hrun in IH. cbn [snd] in IH.
      rewrite decide_True by done. simpl. apply le_n_S, IH.
    + specialize (IH a n s1 (Hk a)). rewrite Hrun in IH. cbn [snd] in IH.
      rewrite decide_False by congruence. apply IH.
Qed.

(** Walk through a program for a bound on its calls. *)
Ltac walk_calls :=
  repeat (simpl;
          first
            [ done
            | split
            | intros ?
            | match goal with
              | |- context [match ?x with _ => _ end] => destruct x eqn:?
              end ]).

Section LeaseSafety.
Context `{RT : Runtime}.
Variable H : handler.

(** X1.  [TakePolicyLeadership] returns whatever the store holds and
    answers, also for a lease document without a server (it installs one
    before writing the id); it reads the store once, first, and writes to it
    at most once. *)
Theorem TakePolicyLeadership_safe (s : state H) (policyId serverId version : string) :
  let r := run H (TakePolicyLeadership policyId serverId version) s in
  let read := BulkRead FleetPoliciesLeader policyId true in
  (exists err, outcome_of r = Returned err)
  /\ (exists tr, trace_of r = Ev read (ask H read s) :: tr /\ none_of store_read tr)
  /\ (count store_write (trace_of r) <= 1)%nat.
Proof.
  cbv zeta. split; [| split].
  - apply never_panics_run.
    unfold TakePolicyLeadership, take_write. walk.
  - unfold TakePolicyLeadership. cbn [bind call_]. rewrite run_Call.
    unfold trace_of at 1. cbn [snd].
    eexists. split; [reflexivity |].
    apply (calls_only_trace (fun c => store_read c = false)).
    unfold take_write. walk.
  - apply calls_at_most_trace.
    unfold TakePolicyLeadership, take_write. walk_calls.
Qed.

End LeaseSafety.

Section LeaseWrites.
Context `{RT : Runtime}.
Variable H : handler.

(** X2.  [ReleasePolicyLeadership] never creates a document and writes to the
    store at most once; when it writes, the lease that it read names the
    caller. *)
Theorem ReleasePolicyLeadership_writes (s : state H) (policyId serverId : string)
    (releaseInterval : Duration) :
  let r := run H (ReleasePolicyLeadership policyId serverId releaseInterval) s in
  let read := BulkRead FleetPoliciesLeader policyId true in
  (count store_write (trace_of r) <= 1)%nat
  /\ Forall (fun e => forall i d x b, projT1 e <> BulkCreate i d x b) (trace_of r)
  /\ (count store_write (trace_of r) = 1%nat ->
      exists data l srv,
        ask H read s = Ok data
        /\ json_Unmarshal_PolicyLeader data = Ok l
        /\ pl_Server l = Some srv
        /\ sm_Id srv = serverId).
Proof.
  cbv zeta. split; [| split].
  - apply calls_at_most_trace. unfold ReleasePolicyLeadership. walk_calls.
  - apply (calls_only_trace (fun c => forall i d x b, c <> BulkCreate i d x b)).
    unfold ReleasePolicyLeadership. walk.
  - unfold ReleasePolicyLeadership. run_step.
    destruct (ask H (BulkRead FleetPoliciesLeader policyId true) s) as [data | e] eqn:Hr.
    + destruct (json_Unmarshal_PolicyLeader data) as [l | e] eqn:Hl; [| done].
      destruct (pl_Server l) as [srv |] eqn:Hsrv; [| done].
      destruct (decide (sm_Id srv <> serverId)) as [Hne | Heq]; [done |].
      intros _. exists data, l, srv. repeat split; try done.
      by destruct (decide (sm_Id srv = serverId)).
    + by destruct (decide (e = ErrElasticNotFound)).
Qed.

(** X3.  The time that a release writes, [time.Now().UTC().Add(-d)], is in
    UTC; for a positive interval it lies exactly [d] before the clock and so
    strictly in the past; for the least [int64] the negation wraps to itself
    and the time lies 2^63 ns in the past instead of in the future. *)
Theorem released_time_arithmetic (now : Time) (d : Duration) :
  in_utc (released_time now d) = true
  /\ ((0 < d <= max_int64)%Z ->
      unix_nano (released_time now d) = (unix_nano now - d)%Z
      /\ (unix_nano (released_time now d) < unix_nano now)%Z)
  /\ ((min_int64 < d <= 0)%Z ->
      unix_nano (released_time now d) = (unix_nano now - d)%Z
      /\ (unix_nano now <= unix_nano (released_time now d))%Z)
  /\ unix_nano (released_time now min_int64) = (unix_nano now - 2 ^ 63)%Z.
Proof.
  split; [done |]. split; [| split].
  - intros Hd. rewrite released_time_instant by (unfold min_int64; lia). lia.
  - intros Hd. rewrite released_time_instant by (unfold max_int64 in *; lia). lia.
  - unfold released_time. simpl. unfold Duration_neg, wrap64, min_int64.
    replace ((- - 2 ^ 63 + 2 ^ 63) `mod` 2 ^ 64)%Z with 0%Z by done. lia.
Qed.

End LeaseWrites.

(* ================================================================== *)
(** ** Further properties of the enrollment *)
(* ================================================================== *)

Section EnrollFailures.
Context `{RT : Runtime}.
Variable H : handler.

(** A request for a pre-existing install reaches no collaborator beyond the
    resolution of the credential. *)
Lemma handleEnroll_preexisting_calls (r : Request) (req : EnrollRequest) :
  decodeEnrollRequest (req_Body r) = Ok req ->
  er_SharedId req <> "" ->
  calls_only (fun c => mint c = false /\ store_write c = false) (handleEnroll r).
Proof.
  intros Hd Hshared. unfold handleEnroll, handleEnroll_admitted.
  cbn [calls_only bind call_]. split; [done |]. intros [t | e0]; [| done].
  apply calls_only_defer; [by split |].
  cbn [calls_only bind call_]. split; [done |]. intros [key | e0]; [| done].
  cbn [calls_only bind call_]. split; [done |]. intros [e0 |]; [done |].
  cbn [calls_only bind call_]. split; [done |]. intros _.
  apply calls_only_defer; [by split |].
  apply calls_only_bind; [by apply fetchEnrollmentKeyRecord_calls |].
  intros [erec | e0]; [| done].
  rewrite Hd. cbn [calls_only bind call_]. split; [done |]. intros _.
  unfold _enroll. by rewrite decide_True.
Qed.

(** X4.  A request with a non-empty shared id always fails: [_enroll]
    returns the "preexisting install" error without a single call, and
    [handleEnroll], whatever its collaborators answer, mints no identity and
    writes nothing to the store for a body that decodes to such a request. *)
Theorem _enroll_preexisting_install (req : EnrollRequest) :
  er_SharedId req <> "" ->
  (forall (s : state H) erec,
     run H (_enroll req erec) s =
       (Returned (Err (ErrNew "preexisting install not yet supported")), s, []))
  /\
  (forall (s : state H) r,
     decodeEnrollRequest (req_Body r) = Ok req ->
     none_of mint (trace_of (run H (handleEnroll r) s))
     /\ none_of store_write (trace_of (run H (handleEnroll r) s))
     /\ forall data, outcome_of (run H (handleEnroll r) s) <> Returned (Ok data)).
Proof.
  intros Hshared. split.
  - intros s erec. unfold _enroll. by rewrite decide_True.
  - intros s r Hd.
    pose proof (calls_only_trace _ H _ s (handleEnroll_preexisting_calls r req Hd Hshared))
      as Ht.
    split; [| split].
    + eapply Forall_impl; [exact Ht |]. by intros ? [? ?].
    + eapply Forall_impl; [exact Ht |]. by intros ? [? ?].
    + intros data. unfold handleEnroll. run_step.
      destruct (ask H LimitAcquire s) as [t | e]; [| done].
      rewrite run_defer_call. unfold handleEnroll_admitted. run_step.
      destruct (ask H (AuthApiKey r) _) as [key | e]; [| done].
      run_step.
      destruct (ask H (ValidateUserAgent r) _) as [e |]; [done |].
      run_step. rewrite run_defer_call, run_bind.
      destruct (run H (fetchEnrollmentKeyRecord (ak_Id key)) _) as [[[[erec | e] | msg] s3] tr3];
        try done.
      rewrite Hd. run_step. unfold _enroll. by rewrite decide_True.
Qed.

(** X5.  Once the credential issuer has answered with a key, a failure of
    any later step makes [_enroll] return that failure with no further call:
    the credential is not revoked, no cache entry is made for it, and no agent
    record exists (the create failed or was not attempted). *)
Theorem _enroll_orphaned_credential (s : state H) (req : EnrollRequest)
    (erec : EnrollmentApiKey) (u : UUID) (key : ApiKey) :
  let now := ask H TimeNow s in
  let s1 := next H TimeNow s in
  let s2 := next H UuidNewV4 s1 in
  let agentId := uuid_String u in
  let issue := ApikeyCreate agentId "" (bytes_of kFleetAccessRolesJSON)
                 (apikey_NewMetadata agentId TypeAccess) in
  let s3 := next H issue s2 in
  let issued := [Ev TimeNow now; Ev UuidNewV4 (Ok u); Ev issue (Ok key)] in
  er_SharedId req = "" ->
  ask H UuidNewV4 s1 = Ok u ->
  ask H issue s2 = Ok key ->
  (forall e,
     updateLocalMetaAgentId (em_Local (er_Meta req)) agentId = Err e ->
     run H (_enroll req erec) s = (Returned (Err e), s3, issued))
  /\
  (forall localMeta e,
     updateLocalMetaAgentId (em_Local (er_Meta req)) agentId = Ok localMeta ->
     json_Marshal_Agent (agentData_of req erec now localMeta key) = Err e ->
     run H (_enroll req erec) s = (Returned (Err (ErrJSON e)), s3, issued))
  /\
  (forall localMeta data e,
     updateLocalMetaAgentId (em_Local (er_Meta req)) agentId = Ok localMeta ->
     json_Marshal_Agent (agentData_of req erec now localMeta key) = Ok data ->
     let create := BulkCreate FleetAgents agentId data true in
     ask H create s3 = Err e ->
     run H (_enroll req erec) s =
       (Returned (Err e), next H create s3, issued ++ [Ev create (Err e)])).
Proof.
  cbv zeta. intros Hshared Hu Hkey.
  unfold _enroll. rewrite decide_False by (intros Hne; by apply Hne).
  unfold generateAccessApiKey, createFleetAgent.
  split; [| split].
  - intros e Hmeta. run_step. rewrite Hu. run_step. rewrite Hkey. run_step.
    by rewrite Hmeta.
  - intros localMeta e Hmeta Hdata. run_step. rewrite Hu. run_step. rewrite Hkey.
    run_step. rewrite Hmeta. by rewrite Hdata.
  - intros localMeta data e Hmeta Hdata Hcreate. run_step. rewrite Hu. run_step.
    rewrite Hkey. run_step. rewrite Hmeta. rewrite Hdata. run_step.
    by rewrite Hcreate.
Qed.

(** X6.  The steps of [_enroll] are strictly sequential, and each uses what
    the one before it answered.  Whatever the collaborators answer, the calls
    it makes are an initial part of the sequence clock, UUID generator,
    credential issuer, create in the agents index, cache; the sequence is
    complete exactly when [_enroll] returns a response.  The issuer is asked
    only after the generator has answered, and under the text of the UUID it
    answered; the create is sent only after the issuer has answered a key,
    under the same id and with the encoding of the agent record made from the
    clock's answer, the patched metadata and that key; and the cache is
    written only after the create has succeeded, with that key. *)
Theorem _enroll_steps_in_order (s : state H) (req : EnrollRequest) (erec : EnrollmentApiKey) :
  let r := run H (_enroll req erec) s in
  let tr := trace_of r in
  let calls := map (fun e : event => projT1 e) tr in
  exists u key data,
    let agentId := uuid_String u in
    let issue := ApikeyCreate agentId "" (bytes_of kFleetAccessRolesJSON)
                   (apikey_NewMetadata agentId TypeAccess) in
    let create := BulkCreate FleetAgents agentId data true in
    calls `prefix_of` enroll_steps u key data
    /\ ((exists resp, outcome_of r = Returned (Ok resp)) <->
        calls = enroll_steps u key data)
    /\ (issue ∈ calls -> Ev UuidNewV4 (Ok u) ∈ tr)
    /\ (create ∈ calls ->
        Ev issue (Ok key) ∈ tr
        /\ exists localMeta,
             updateLocalMetaAgentId (em_Local (er_Meta req)) agentId = Ok localMeta
             /\ json_Marshal_Agent
                  (agentData_of req erec (ask H TimeNow s) localMeta key) = Ok data)
    /\ (CacheSetApiKey key kCacheAccessInitTTL ∈ calls ->
        exists created, Ev create (Ok created) ∈ tr).
Proof.
  cbv zeta. unfold _enroll, generateAccessApiKey, createFleetAgent, enroll_steps.
  pose (k0 := {| ak_Id := ""; ak_Key := "" |}).
  assert (Hout : forall (c : call) (l : list call),
             c ∈ l -> Forall (fun c' => c' <> c) l -> False).
  { intros c l Hin Hall. rewrite Forall_forall in Hall. by apply (Hall c Hin). }
  destruct (decide (er_SharedId req <> "")).
  { exists [], k0, []. split; [apply prefix_nil |]. split; [by split; [intros [? ?] |] |].
    cbn [run trace_of snd map].
    split; [| split]; intros Hin; by apply elem_of_nil in Hin. }
  run_step. destruct (ask H UuidNewV4 _) as [u | e].
  2: { exists [], k0, []. split; [by eexists |]. split; [by split; [intros [? ?] |] |].
       cbn [run trace_of snd map projT1 Ev].
       split; [| split]; intros Hin; exfalso; apply (Hout _ _ Hin); by repeat constructor. }
  run_step.
  destruct (ask H (ApikeyCreate _ _ _ _) _) as [key | e].
  2: { exists u, k0, []. split; [by eexists |]. split; [by split; [intros [? ?] |] |].
       cbn [run trace_of snd map projT1 Ev].
       split; [intros _; apply list_elem_of_further, list_elem_of_here |].
       split; intros Hin; exfalso; apply (Hout _ _ Hin); by repeat constructor. }
  run_step.
  destruct (updateLocalMetaAgentId _ _) as [localMeta | e] eqn:Hmeta.
  2: { exists u, key, []. split; [by eexists |]. split; [by split; [intros [? ?] |] |].
       cbn [run trace_of snd map projT1 Ev].
       split; [intros _; apply list_elem_of_further, list_elem_of_here |].
       split; intros Hin; exfalso; apply (Hout _ _ Hin); by repeat constructor. }
  destruct (json_Marshal_Agent _) as [data | e] eqn:Hdata.
  2: { exists u, key, []. split; [by eexists |]. split; [by split; [intros [? ?] |] |].
       cbn [run trace_of snd map projT1 Ev].
       split; [intros _; apply list_elem_of_further, list_elem_of_here |].
       split; intros Hin; exfalso; apply (Hout _ _ Hin); by repeat constructor. }
  run_step.
  destruct (ask H (BulkCreate _ _ _ _) _) as [created | e].
  2: { exists u, key, data. split; [by eexists |]. split; [by split; [intros [? ?] |] |].
       cbn [run trace_of snd map projT1 Ev].
       split; [intros _; apply list_elem_of_further, list_elem_of_here |].
       split.
       - intros _. split; [do 2 apply list_elem_of_further; apply list_elem_of_here |].
         by exists localMeta.
       - intros Hin; exfalso; apply (Hout _ _ Hin); by repeat constructor. }
  run_step. exists u, key, data. split; [by eexists |].
  split; [split; [done | intros _; by eexists] |].
  cbn [run trace_of snd map projT1 Ev].
  split; [intros _; apply list_elem_of_further, list_elem_of_here |].
  split.
  - intros _. split; [do 2 apply list_elem_of_further; apply list_elem_of_here |].
    by exists localMeta.
  - intros _. exists created. do 3 apply list_elem_of_further. apply list_elem_of_here.
Qed.

End EnrollFailures.

(** X4 at work: a body with a shared id. *)
Lemma _enroll_preexisting_install_example :
  let r := run Ref.collaborators (handleEnroll Ref.shared_id_request) Ref.enroll_world in
  outcome_of r = Returned (Err (ErrNew "preexisting install not yet supported"))
  /\ none_of mint (trace_of r)
  /\ none_of store_write (trace_of r).
Proof.
  cbv zeta.
  destruct (decodeEnrollRequest (req_Body Ref.shared_id_request)) as [req | e] eqn:Hd;
    [| vm_compute in Hd; discriminate].
  assert (Hshared : er_SharedId req <> "").
  { vm_compute in Hd. injection Hd as <-. vm_compute. discriminate. }
  destruct (_enroll_preexisting_install Ref.collaborators req Hshared) as [_ Hh].
  destruct (Hh Ref.enroll_world Ref.shared_id_request Hd) as (Hm & Hw & _).
  split; [vm_compute; reflexivity |]. by split.
Defined.

(** X5 at work: the local metadata of the request is a JSON array, the patch
    fails after the credential has been issued, and the issued credential
    stays, with no agent record and no cache entry. *)
Lemma _enroll_orphaned_credential_example :
  let r := run Ref.collaborators (_enroll Ref.array_metadata_req Ref.example_erec)
             Ref.enroll_world in
  outcome_of r =
    Returned (Err (ErrJSON (UnmarshalTypeError "array" "map[string]interface {}")))
  /\ Ref.issued r.1.2 =
       [{| ak_Id := "key-1b9c327a-c93a-4aef-b67f-effbef54d836"; ak_Key := "secret" |}]
  /\ Ref.docs r.1.2 = ∅
  /\ Ref.cached_api_keys r.1.2 = ∅.
Proof.
  cbv zeta.
  edestruct (_enroll_orphaned_credential Ref.collaborators Ref.enroll_world
               Ref.array_metadata_req Ref.example_erec) as (Hpatch & _).
  - reflexivity.
  - vm_compute. reflexivity.
  - vm_compute. reflexivity.
  - erewrite Hpatch; [| vm_compute; reflexivity].
    repeat split; vm_compute; reflexivity.
Defined.

Section HandleEnroll.
Context `{RT : Runtime}.
Variable H : handler.

Lemma handleEnroll_counted_calls (P : call -> Prop) (r : Request) (key : ApiKey) :
  P (CacheGetEnrollmentApiKey (ak_Id key)) ->
  P (FindEnrollmentAPIKey (ak_Id key)) ->
  (forall rec cost ttl, P (CacheSetEnrollmentApiKey (ak_Id key) rec cost ttl)) ->
  (forall n, P (CntEnrollBodyIn n)) ->
  P TimeNow -> P UuidNewV4 ->
  (forall n t ro m, P (ApikeyCreate n t ro m)) ->
  (forall i d, P (BulkCreate FleetAgents i d true)) ->
  (forall k t, P (CacheSetApiKey k t)) ->
  calls_only P (handleEnroll_counted r key).
Proof.
  intros Hg Hf Hs Hb Ht Hu Ha Hc Hw. unfold handleEnroll_counted.
  apply calls_only_bind; [by apply fetchEnrollmentKeyRecord_calls |].
  intros [erec | e]; [| done].
  destruct (decodeEnrollRequest (req_Body r)) as [req | e]; [| done].
  cbn [calls_only bind call_]. split; [done |]. intros _.
  apply calls_only_bind; [by apply _enroll_calls |].
  intros [resp | e]; [| done].
  by destruct (json_Marshal_EnrollResponse resp).
Qed.

Lemma handleEnroll_counted_never_panics (r : Request) (key : ApiKey) :
  never_panics (handleEnroll_counted r key).
Proof.
  unfold handleEnroll_counted, fetchEnrollmentKeyRecord, _enroll,
    generateAccessApiKey, createFleetAgent.
  walk.
Qed.

Lemma run_call_ (c : call) (s : state H) :
  run H (call_ c) s = (Returned (ask H c s), next H c s, [Ev c (ask H c s)]).
Proof. unfold call_. cbn [run]. by rewrite handle_ask_next. Qed.

Lemma handleEnroll_admitted_counted (r : Request) :
  handleEnroll_admitted r =
    (try key <- call_ (AuthApiKey r) ;;
     err <- call_ (ValidateUserAgent r) ;;
     match err with
     | Some e => Ret (Err e)
     | None =>
         _ <- call_ CntEnrollIncStart ;;
         defer (call_ CntEnrollDone) (handleEnroll_counted r key)
     end).
Proof. reflexivity. Qed.

(** The run of [handleEnroll] once the slot, the key and the user agent are
    in hand. *)
Lemma handleEnroll_run (s : state H) (r : Request) (t : nat) (key : ApiKey) :
  let s1 := next H LimitAcquire s in
  let s2 := next H (AuthApiKey r) s1 in
  let s3 := next H (ValidateUserAgent r) s2 in
  let s4 := next H CntEnrollIncStart s3 in
  ask H LimitAcquire s = Ok t ->
  ask H (AuthApiKey r) s1 = Ok key ->
  ask H (ValidateUserAgent r) s2 = None ->
  run H (handleEnroll r) s =
    let '(o, s5, tr) := run H (handleEnroll_counted r key) s4 in
    (o, next H (LimitRelease t) (next H CntEnrollDone s5),
     [Ev LimitAcquire (Ok t); Ev (AuthApiKey r) (Ok key);
      Ev (ValidateUserAgent r) None; Ev CntEnrollIncStart tt]
     ++ tr ++ [Ev CntEnrollDone tt; Ev (LimitRelease t) tt]).
Proof.
  cbv zeta. intros Hacq Hauth Hua.
  unfold handleEnroll. rewrite run_bind, run_call_, Hacq. cbv beta iota zeta.
  rewrite run_defer_call, handleEnroll_admitted_counted.
  rewrite run_bind, run_call_, Hauth. cbv beta iota zeta.
  rewrite run_bind, run_call_, Hua. cbv beta iota zeta.
  rewrite run_bind, run_call_. cbv beta iota zeta.
  rewrite run_defer_call.
  destruct (run H (handleEnroll_counted r key) _) as [[o s5] tr].
  repeat match goal with |- context [ask H ?c ?st] => destruct (ask H c st) end.
  cbn [app]. by rewrite <- !app_assoc.
Qed.

(** X7.  In every run of [handleEnroll] the enroll counter is started as
    often as it is finished, at most once.  When the slot, the key and the
    user agent are in hand, the handler returns, and the trace is those three
    calls, the start of the counter, the calls of the enrollment proper (none
    on a counter or on the limiter), and then the two deferred calls in the
    reverse order of their [defer] statements: the counter is finished first,
    the slot released last. *)
Theorem handleEnroll_deferred_order (s : state H) (r : Request) :
  let s1 := next H LimitAcquire s in
  let s2 := next H (AuthApiKey r) s1 in
  let tr := trace_of (run H (handleEnroll r) s) in
  (count counter_start tr = count counter_done tr /\ (count counter_start tr <= 1)%nat)
  /\
  (forall t key,
     ask H LimitAcquire s = Ok t ->
     ask H (AuthApiKey r) s1 = Ok key ->
     ask H (ValidateUserAgent r) s2 = None ->
     exists res mid,
       outcome_of (run H (handleEnroll r) s) = Returned res
       /\ tr = [Ev LimitAcquire (Ok t); Ev (AuthApiKey r) (Ok key);
                Ev (ValidateUserAgent r) None; Ev CntEnrollIncStart tt]
               ++ mid ++ [Ev CntEnrollDone tt; Ev (LimitRelease t) tt]
       /\ none_of bookkeeping mid).
Proof.
  cbv zeta.
  assert (Hshape : forall t key,
    ask H LimitAcquire s = Ok t ->
    ask H (AuthApiKey r) (next H LimitAcquire s) = Ok key ->
    ask H (ValidateUserAgent r) (next H (AuthApiKey r) (next H LimitAcquire s)) = None ->
    exists res mid,
      outcome_of (run H (handleEnroll r) s) = Returned res
      /\ trace_of (run H (handleEnroll r) s) =
           [Ev LimitAcquire (Ok t); Ev (AuthApiKey r) (Ok key);
            Ev (ValidateUserAgent r) None; Ev CntEnrollIncStart tt]
           ++ mid ++ [Ev CntEnrollDone tt; Ev (LimitRelease t) tt]
      /\ none_of bookkeeping mid).
  { intros t key Hacq Hauth Hua.
    rewrite (handleEnroll_run s r t key Hacq Hauth Hua).
    set (s4 := next H CntEnrollIncStart _).
    destruct (never_panics_run H _ s4 (handleEnroll_counted_never_panics r key))
      as [res Hres].
    pose proof (calls_only_trace (fun c => bookkeeping c = false) H
                  (handleEnroll_counted r key) s4) as Hmid.
    destruct (run H (handleEnroll_counted r key) s4) as [[o s5] mid].
    unfold outcome_of, trace_of in *. cbn [fst snd] in *. subst o.
    exists res, mid. split; [done |]. split; [done |].
    apply Hmid. by apply handleEnroll_counted_calls. }
  split; [| exact Hshape].
  destruct (ask H LimitAcquire s) as [t | e] eqn:Hacq.
  2: { unfold handleEnroll. run_step. rewrite Hacq. unfold count. simpl. split; [reflexivity | lia]. }
  destruct (ask H (AuthApiKey r) (next H LimitAcquire s)) as [key | e] eqn:Hauth.
  2: { unfold handleEnroll. run_step. rewrite Hacq, run_defer_call.
       unfold handleEnroll_admitted. run_step. rewrite Hauth. unfold count. simpl. split; [reflexivity | lia]. }
  destruct (ask H (ValidateUserAgent r) (next H (AuthApiKey r) (next H LimitAcquire s)))
    as [e |] eqn:Hua.
  { unfold handleEnroll. run_step. rewrite Hacq, run_defer_call.
    unfold handleEnroll_admitted. run_step. rewrite Hauth. run_step. rewrite Hua.
    unfold count. simpl. split; [reflexivity | lia]. }
  destruct (Hshape t key eq_refl eq_refl eq_refl) as (res & mid & _ & -> & Hmid).
  assert (Hs : none_of counter_start mid).
  { eapply Forall_impl; [exact Hmid |]. intros [c a]. simpl. by destruct c. }
  assert (Hd : none_of counter_done mid).
  { eapply Forall_impl; [exact Hmid |]. intros [c a]. simpl. by destruct c. }
  rewrite !count_app, (count_none_of _ _ Hs), (count_none_of _ _ Hd).
  unfold count. simpl. split; [reflexivity | lia].
Qed.

(** X8.  [handleEnroll] mints an identity (a fresh agent id, an access
    credential) only after the request has been validated: when one of its
    calls is a minting call, the body of the request decodes to a request
    of a valid enrollment type and with an empty shared id. *)
Theorem handleEnroll_mint_requires (s : state H) (r : Request) :
  ~ none_of mint (trace_of (run H (handleEnroll r) s)) ->
  exists req,
    decodeEnrollRequest (req_Body r) = Ok req
    /\ (er_Type req = "EPHEMERAL" \/ er_Type req = "PERMANENT"
        \/ er_Type req = "TEMPORARY")
    /\ er_SharedId req = "".
Proof.
  intros Hmint.
  destruct (decodeEnrollRequest (req_Body r)) as [req | e] eqn:Hd.
  - exists req. split; [done |]. split.
    + unfold decodeEnrollRequest in Hd.
      destruct (json_Decode_EnrollRequest (req_Body r)) as [req' | e]; [| done].
      destruct (valid_enroll_type (er_Type req')) eqn:Hv; [| done].
      injection Hd as ->. by apply valid_enroll_type_iff.
    + destruct (decide (er_SharedId req = "")) as [| Hshared]; [done |].
      destruct Hmint.
      pose proof (calls_only_trace _ H _ s
                    (handleEnroll_preexisting_calls r req Hd Hshared)) as Ht.
      eapply Forall_impl; [exact Ht |]. by intros ? [? ?].
  - destruct Hmint.
    pose proof (calls_only_trace _ H _ s (handleEnroll_undecoded_calls r e Hd)) as Ht.
    eapply Forall_impl; [exact Ht |]. by intros ? [? ?].
Qed.

(** X9.  Whatever the collaborators answer, every enrollment credential that
    [handleEnroll] puts into the cache is active, and is stored with the
    length of its value as cost and a TTL of 30 s. *)
Theorem handleEnroll_caches_active_only (s : state H) (r : Request) :
  Forall (fun e : event =>
            match projT1 e with
            | CacheSetEnrollmentApiKey id rec cost ttl =>
                eak_Active rec = true
                /\ cost = Z.of_nat (String.length (eak_ApiKey rec))
                /\ ttl = (Second * 30)%Z
            | _ => True
            end)
         (trace_of (run H (handleEnroll r) s)).
Proof.
  apply (calls_only_trace
           (fun c => match c with
                     | CacheSetEnrollmentApiKey id rec cost ttl =>
                         eak_Active rec = true
                         /\ cost = Z.of_nat (String.length (eak_ApiKey rec))
                         /\ ttl = (Second * 30)%Z
                     | _ => True
                     end)).
  unfold handleEnroll, handleEnroll_admitted.
  cbn [calls_only bind call_]. split; [done |]. intros [t | e0]; [| done].
  apply calls_only_defer; [by split |].
  cbn [calls_only bind call_]. split; [done |]. intros [key | e0]; [| done].
  cbn [calls_only bind call_]. split; [done |]. intros [e0 |]; [done |].
  cbn [calls_only bind call_]. split; [done |]. intros _.
  apply calls_only_defer; [by split |].
  apply calls_only_bind.
  { unfold fetchEnrollmentKeyRecord.
    cbn [calls_only bind call_]. split; [done |]. intros [hit |]; [done |].
    cbn [calls_only bind call_]. split; [done |]. intros [rec | e0]; [| done].
    destruct (eak_Active rec) eqn:Ha; [| done].
    cbn [negb calls_only bind call_]. by repeat split. }
  intros [erec | e0]; [| done].
  destruct (decodeEnrollRequest (req_Body r)) as [req | e0]; [| done].
  cbn [calls_only bind call_]. split; [done |]. intros _.
  apply calls_only_bind; [by apply _enroll_calls |].
  intros [resp | e0]; [| done].
  by destruct (json_Marshal_EnrollResponse resp).
Qed.

End HandleEnroll.

(** X8 at work: the example enrollment mints, and its body is valid. *)
Lemma handleEnroll_mint_requires_example :
  exists req,
    decodeEnrollRequest Ref.example_body = Ok req
    /\ (er_Type req = "EPHEMERAL" \/ er_Type req = "PERMANENT"
        \/ er_Type req = "TEMPORARY")
    /\ er_SharedId req = "".
Proof.
  apply (handleEnroll_mint_requires Ref.collaborators Ref.enroll_world Ref.example_request).
  intros Hnone. unfold none_of in Hnone. rewrite Forall_forall in Hnone.
  specialize (Hnone (Ev UuidNewV4 (Ok Ref.example_uuid))).
  discriminate Hnone.
  vm_compute.
  repeat first [apply list_elem_of_here | apply list_elem_of_further].
Defined.

(* ================================================================== *)
(** ** The aggregation buckets of a search result *)
(* ================================================================== *)

Lemma delete_tags__bucket (aggs : gmap string value) :
  delete_tags _bucket_tags aggs = delete "doc_count" (delete "key" aggs).
Proof. reflexivity. Qed.

Section BucketTheorems.
Context `{RT : Runtime} `{ES : EsRuntime}.

Lemma range_aggs_cons (name : string) (v : value) (rest : list (string * value))
    (acc : gmap string HitsT) :
  range_aggs ((name, v) :: rest) acc =
  match decode_hits_member v with
  | None => range_aggs rest acc
  | Some (Ok hits) => range_aggs rest (<[name := hits]> acc)
  | Some (Err e) => Err e
  end.
Proof.
  unfold decode_hits_member, hits_member. cbn [range_aggs].
  destruct v as [| | | | | vMap]; try done.
  destruct (vMap !! "hits") as [hMap |]; [| done].
  destruct (json_Marshal hMap) as [data | e]; [| done].
  by destruct (json_Unmarshal_HitsT data).
Qed.

(** When the loop ends without an error, the aggregations are the members
    that contribute one, over what was there before. *)
Lemma range_aggs_ok (entries : list (string * value)) (acc ags : gmap string HitsT) :
  NoDup entries.*1 ->
  range_aggs entries acc = Ok ags ->
  ags = omap aggregation_of (list_to_map entries : gmap string value) ∪ acc.
Proof.
  revert acc. induction entries as [| [name v] rest IH]; intros acc Hnd.
  - cbn. intros [= <-]. by rewrite omap_empty, (left_id_L ∅ (∪)).
  - rewrite range_aggs_cons. apply NoDup_cons in Hnd as [Hnotin Hnd].
    assert (Hnone : omap aggregation_of (list_to_map rest : gmap string value) !! name = None).
    { rewrite lookup_omap. by rewrite (not_elem_of_list_to_map_1 _ _ Hnotin). }
    cbn [list_to_map foldr curry fst snd].
    destruct (decode_hits_member v) as [[hits | e] |] eqn:Hv; [| done |].
    + intros Hr. rewrite (IH _ Hnd Hr).
      apply map_eq. intros k.
      rewrite !lookup_union, !lookup_omap.
      destruct (decide (k = name)) as [-> | Hk].
      * rewrite !lookup_insert_eq. simpl. unfold aggregation_of at 2. rewrite Hv.
        rewrite lookup_omap in Hnone. rewrite Hnone. by destruct (acc !! name).
      * by rewrite !lookup_insert_ne.
    + intros Hr. rewrite (IH _ Hnd Hr).
      apply map_eq. intros k.
      rewrite !lookup_union, !lookup_omap.
      destruct (decide (k = name)) as [-> | Hk].
      * rewrite lookup_insert_eq. simpl. unfold aggregation_of at 2. rewrite Hv.
        rewrite lookup_omap in Hnone. by rewrite Hnone.
      * by rewrite lookup_insert_ne.
Qed.

(** The loop fails exactly when a member fails to contribute. *)
Lemma range_aggs_err (entries : list (string * value)) (acc : gmap string HitsT) (e : json_error) :
  range_aggs entries acc = Err e ->
  exists name v, (name, v) ∈ entries /\ decode_hits_member v = Some (Err e).
Proof.
  revert acc. induction entries as [| [name v] rest IH]; intros acc; [done |].
  rewrite range_aggs_cons.
  destruct (decode_hits_member v) as [[hits | e'] |] eqn:Hv.
  - intros Hr. destruct (IH _ Hr) as (n & w & Hin & Hw).
    exists n, w. split; [by apply list_elem_of_further | done].
  - intros [= ->]. exists name, v. split; [apply list_elem_of_here | done].
  - intros Hr. destruct (IH _ Hr) as (n & w & Hin & Hw).
    exists n, w. split; [by apply list_elem_of_further | done].
Qed.

Lemma range_aggs_total (entries : list (string * value)) (acc : gmap string HitsT) :
  (forall name v e, (name, v) ∈ entries -> decode_hits_member v <> Some (Err e)) ->
  exists ags, range_aggs entries acc = Ok ags.
Proof.
  revert acc. induction entries as [| [name v] rest IH]; intros acc Hall.
  - by eexists.
  - rewrite range_aggs_cons.
    destruct (decode_hits_member v) as [[hits | e] |] eqn:Hv.
    + apply IH. intros n w e Hin. apply (Hall n). by apply list_elem_of_further.
    + destruct (Hall name v e); [apply list_elem_of_here | done].
    + apply IH. intros n w e Hin. apply (Hall n). by apply list_elem_of_further.
Qed.

Lemma range_aggs_member_ok (entries : list (string * value)) (acc ags : gmap string HitsT)
    (name : string) (v : value) (e : json_error) :
  range_aggs entries acc = Ok ags ->
  (name, v) ∈ entries ->
  decode_hits_member v <> Some (Err e).
Proof.
  revert acc. induction entries as [| [n0 w0] rest IH]; intros acc Hr Hin.
  { by apply elem_of_nil in Hin. }
  rewrite range_aggs_cons in Hr.
  apply elem_of_cons in Hin as [[= <- <-] | Hin].
  - intros Hv. by rewrite Hv in Hr.
  - destruct (decode_hits_member w0) as [[h | ?] |]; [| done |]; eauto.
Qed.

Lemma order_list_to_map (order : gmap string value -> list (string * value))
    (m : gmap string value) :
  order m ≡ₚ map_to_list m ->
  NoDup (order m).*1 /\ (list_to_map (order m) : gmap string value) = m.
Proof.
  intros Hp. assert (Hnd : NoDup (order m).*1).
  { rewrite Hp. apply NoDup_fst_map_to_list. }
  split; [done |].
  rewrite <- (list_to_map_to_list m) at 2.
  by apply list_to_map_proper.
Qed.

(** X10.  When [(b *Bucket) UnmarshalJSON] succeeds, in whatever order the
    [range] statement visits the members: the key and the document count are
    those of the plain decoding, and the aggregations are exactly the members
    other than ["key"] and ["doc_count"] that are objects with a ["hits"]
    member, each with its ["hits"] decoded as a [HitsT]; the aggregations map
    is not nil even when it is empty. *)
Theorem Bucket_UnmarshalJSON_ok
    (order : gmap string value -> list (string * value)) (data : bytes) (b : Bucket) :
  (forall m, order m ≡ₚ map_to_list m) ->
  Bucket_UnmarshalJSON order data = Ok b ->
  exists b2 aggs,
    json_Unmarshal__bucket data = Ok b2
    /\ json_Unmarshal_map data = Ok aggs
    /\ bucket_Key b = bucket_Key b2
    /\ bucket_DocCount b = bucket_DocCount b2
    /\ bucket_Aggregations b =
         Some (omap aggregation_of (delete "doc_count" (delete "key" aggs)))
    /\ (forall ags, bucket_Aggregations b = Some ags ->
          ags !! "key" = None /\ ags !! "doc_count" = None
          /\ forall name hits,
               ags !! name = Some hits ->
               exists vMap hMap encoded,
                 aggs !! name = Some (VMap vMap)
                 /\ vMap !! "hits" = Some hMap
                 /\ json_Marshal hMap = Ok encoded
                 /\ json_Unmarshal_HitsT encoded = Ok hits).
Proof.
  intros Horder. unfold Bucket_UnmarshalJSON.
  destruct (json_Unmarshal__bucket data) as [b2 | e]; [| done].
  destruct (json_Unmarshal_map data) as [aggs | e]; [| done].
  rewrite delete_tags__bucket.
  set (aggs' := delete "doc_count" (delete "key" aggs)).
  destruct (order_list_to_map order aggs' (Horder aggs')) as [Hnd Hmap].
  destruct (range_aggs (order aggs') ∅) as [ags | e] eqn:Hr; [| done].
  intros [= <-]. exists b2, aggs. cbn [bucket_Key bucket_DocCount bucket_Aggregations].
  apply range_aggs_ok in Hr; [| done].
  rewrite Hmap, (right_id_L ∅ (∪)) in Hr. subst ags.
  do 5 (split; [done |]). intros ags [= <-]. split; [| split].
  - rewrite lookup_omap. unfold aggs'.
    by rewrite lookup_delete_ne, lookup_delete_eq.
  - rewrite lookup_omap. unfold aggs'.
    by rewrite lookup_delete_eq.
  - intros name hits. rewrite lookup_omap. unfold aggs'.
    destruct (decide (name = "doc_count")) as [-> | Hdc];
      [by rewrite lookup_delete_eq |].
    rewrite lookup_delete_ne by done.
    destruct (decide (name = "key")) as [-> | Hk];
      [by rewrite lookup_delete_eq |].
    rewrite lookup_delete_ne by done.
    destruct (aggs !! name) as [v |]; [| done]. simpl.
    unfold aggregation_of, decode_hits_member, hits_member.
    destruct v as [| | | | | vMap]; try done.
    destruct (vMap !! "hits") as [hMap |] eqn:Hh; [| done].
    destruct (json_Marshal hMap) as [encoded | e] eqn:He; [| done].
    destruct (json_Unmarshal_HitsT encoded) as [h | e] eqn:Hd; [| done].
    intros [= <-]. by exists vMap, hMap, encoded.
Qed.

(** X11.  The order in which the [range] statement visits the members
    decides neither whether [UnmarshalJSON] succeeds nor what it produces:
    under two orders it gives the same bucket or fails under both, and it
    fails in the loop exactly when some member other than ["key"] and
    ["doc_count"] has ["hits"] that do not encode or do not decode as a
    [HitsT]; the error is then that of such a member. *)
Theorem Bucket_UnmarshalJSON_order
    (order1 order2 : gmap string value -> list (string * value)) (data : bytes) :
  (forall m, order1 m ≡ₚ map_to_list m) ->
  (forall m, order2 m ≡ₚ map_to_list m) ->
  (forall b, Bucket_UnmarshalJSON order1 data = Ok b <->
             Bucket_UnmarshalJSON order2 data = Ok b)
  /\
  (forall b2 aggs e,
     json_Unmarshal__bucket data = Ok b2 ->
     json_Unmarshal_map data = Ok aggs ->
     Bucket_UnmarshalJSON order1 data = Err e ->
     exists name v,
       name <> "key" /\ name <> "doc_count"
       /\ aggs !! name = Some v
       /\ decode_hits_member v = Some (Err e))
  /\
  (forall b2 aggs name v e,
     json_Unmarshal__bucket data = Ok b2 ->
     json_Unmarshal_map data = Ok aggs ->
     name <> "key" -> name <> "doc_count" ->
     aggs !! name = Some v ->
     decode_hits_member v = Some (Err e) ->
     exists e', Bucket_UnmarshalJSON order1 data = Err e').
Proof.
  intros H1 H2.
  assert (Hmem : forall (order : gmap string value -> list (string * value)) aggs name v,
            (forall m, order m ≡ₚ map_to_list m) ->
            (name, v) ∈ order (delete "doc_count" (delete "key" aggs)) <->
            name <> "key" /\ name <> "doc_count" /\ aggs !! name = Some v).
  { intros order aggs name v Ho. rewrite (Ho _), elem_of_map_to_list.
    destruct (decide (name = "doc_count")) as [-> | Hdc].
    { rewrite lookup_delete_eq. split; [done | by intros (_ & ? & _)]. }
    rewrite lookup_delete_ne by done.
    destruct (decide (name = "key")) as [-> | Hk].
    { rewrite lookup_delete_eq. split; [done | by intros (? & _)]. }
    rewrite lookup_delete_ne by done. split; [done | by intros (_ & _ & ?)]. }
  assert (Hsame : forall (oa ob : gmap string value -> list (string * value)) b,
            (forall m, oa m ≡ₚ map_to_list m) ->
            (forall m, ob m ≡ₚ map_to_list m) ->
            Bucket_UnmarshalJSON oa data = Ok b -> Bucket_UnmarshalJSON ob data = Ok b).
  { intros oa ob b Ha Hb. unfold Bucket_UnmarshalJSON.
    destruct (json_Unmarshal__bucket data) as [b2 | e]; [| done].
    destruct (json_Unmarshal_map data) as [aggs | e]; [| done].
    rewrite delete_tags__bucket.
    set (aggs' := delete "doc_count" (delete "key" aggs)).
    destruct (order_list_to_map oa aggs' (Ha aggs')) as [Hnda Hmapa].
    destruct (order_list_to_map ob aggs' (Hb aggs')) as [Hndb Hmapb].
    destruct (range_aggs (oa aggs') ∅) as [agsa | e] eqn:Hra; [| done].
    intros [= <-].
    destruct (range_aggs (ob aggs') ∅) as [agsb | e] eqn:Hrb.
    - apply range_aggs_ok in Hra; [| done]. apply range_aggs_ok in Hrb; [| done].
      rewrite Hmapa in Hra. rewrite Hmapb in Hrb. by subst.
    - destruct (range_aggs_total (ob aggs') ∅) as [ags Hags].
      + intros n w e' Hin'.
        apply (range_aggs_member_ok _ _ _ n w e' Hra).
        apply (Hmem oa aggs n w Ha). by apply (Hmem ob aggs n w Hb).
      + by rewrite Hrb in Hags. }
  split; [| split].
  - intros b. split; by apply Hsame.
  - intros b2 aggs e Hb2 Haggs. unfold Bucket_UnmarshalJSON. rewrite Hb2, Haggs.
    rewrite delete_tags__bucket.
    destruct (range_aggs _ ∅) as [ags | e'] eqn:Hr; [done |].
    intros [= ->]. apply range_aggs_err in Hr as (name & v & Hin & Hv).
    apply (Hmem order1 aggs name v H1) in Hin as (? & ? & ?).
    by exists name, v.
  - intros b2 aggs name v e Hb2 Haggs Hk Hdc Hlook Hv.
    unfold Bucket_UnmarshalJSON. rewrite Hb2, Haggs, delete_tags__bucket.
    destruct (range_aggs _ ∅) as [ags | e'] eqn:Hr; [| by eexists].
    exfalso. apply (range_aggs_member_ok _ _ _ name v e Hr); [| done].
    by apply (Hmem order1 aggs name v H1).
Qed.

End BucketTheorems.

(* ================================================================== *)
(** ** The search of the leases *)
(* ================================================================== *)

Lemma xhandle_ask_next (X : xhandler) (c : xcall) (s : xstate X) :
  xhandle X c s = (xask X c s, xnext X c s).
Proof. unfold xask, xnext. by destruct (xhandle X c s). Qed.

Ltac xrun_step :=
  cbn [xrun xbind xcall_ lift]; rewrite ?xhandle_ask_next; cbn [xrun xbind xcall_ lift].

Lemma xcalls_only_trace {R : Type} (P : xcall -> Prop) (X : xhandler) (p : xprog R)
    (s : xstate X) :
  xcalls_only P p -> Forall (fun e => P (projT1 e)) (xrun X p s).2.
Proof.
  revert s. induction p as [a | msg | c k IH]; intros s; simpl.
  - intros _. constructor.
  - intros _. constructor.
  - intros [Hc Hk]. destruct (xhandle X c s) as [a s1].
    specialize (IH a s1 (Hk a)).
    destruct (xrun X (k a) s1) as [[o s2] tr]. simpl in *.
    by constructor.
Qed.

Section SearchTheorems.
Context `{RT : Runtime} `{ES : EsRuntime}.

Lemma last_hit_cons (id : string) (h : HitT) (rest : list HitT) :
  last_hit id (h :: rest) =
  match last_hit id rest with
  | Some h' => Some h'
  | None => if decide (hit_Id h = id) then Some h else None
  end.
Proof.
  unfold last_hit. rewrite filter_cons.
  destruct (decide (hit_Id h = id)); [| by destruct (last _)].
  rewrite last_cons. by destruct (last _).
Qed.

(** The loop over hits that all decode: the map holds, under each id, the
    lease of the last hit with that id, over what was there before. *)
Lemma range_hits_ok (hits : list HitT) (acc : gmap string PolicyLeader) :
  (forall h, h ∈ hits -> exists l, json_Unmarshal_PolicyLeader (hit_Source h) = Ok l) ->
  exists leaders,
    range_hits hits acc = (leaders, None)
    /\ forall id,
         leaders !! id =
         match last_hit id hits with
         | Some h =>
             match json_Unmarshal_PolicyLeader (hit_Source h) with
             | Ok l => Some l
             | Err _ => None
             end
         | None => acc !! id
         end.
Proof.
  revert acc. induction hits as [| h rest IH]; intros acc Hall.
  - exists acc. by split.
  - destruct (Hall h) as [l Hl]; [apply list_elem_of_here |].
    destruct (IH (<[hit_Id h := l]> acc)) as (leaders & Hr & Hlook).
    { intros h' Hin. apply Hall. by apply list_elem_of_further. }
    exists leaders. cbn [range_hits]. rewrite Hl. split; [done |].
    intros id. rewrite Hlook, last_hit_cons.
    destruct (last_hit id rest) as [h' |]; [done |].
    destruct (decide (hit_Id h = id)) as [<- | Hne].
    + by rewrite lookup_insert_eq, Hl.
    + by rewrite lookup_insert_ne.
Qed.

Lemma range_hits_app (pre post : list HitT) (acc : gmap string PolicyLeader) :
  range_hits (pre ++ post) acc =
  match range_hits pre acc with
  | (leaders, None) => range_hits post leaders
  | (leaders, Some e) => (leaders, Some e)
  end.
Proof.
  revert acc. induction pre as [| h rest IH]; intros acc; [done |].
  cbn [app range_hits]. by destruct (json_Unmarshal_PolicyLeader (hit_Source h)).
Qed.

Variable X : xhandler.

(** X12.  When the query is rendered, the search answers and every hit
    decodes, [SearchPolicyLeaders] returns a map and no error, whatever the
    [Once] literal left in [err]: under each id the map holds the lease of
    the last hit with that id, and an id without a hit is absent from it. *)
Theorem SearchPolicyLeaders_found (s : xstate X) (ids : list string)
    (data : bytes) (res : ResultT) :
  let once := OncePrepareSearchPolicyLeaders in
  let render := TmplRenderOne FieldId ids in
  let search := BulkSearch [FleetPoliciesLeader] data in
  let s1 := xnext X once s in
  let s2 := xnext X render s1 in
  xask X render s1 = Returned (Ok data) ->
  xask X search s2 = Ok res ->
  (forall h, h ∈ hits_Hits (res_HitsT res) ->
     exists l, json_Unmarshal_PolicyLeader (hit_Source h) = Ok l) ->
  exists leaders,
    xrun X (SearchPolicyLeaders ids) s =
      (Returned (Some leaders, None), xnext X search s2,
       [XEv once (xask X once s); XEv render (Returned (Ok data)); XEv search (Ok res)])
    /\ forall id,
         leaders !! id =
         match last_hit id (hits_Hits (res_HitsT res)) with
         | Some h =>
             match json_Unmarshal_PolicyLeader (hit_Source h) with
             | Ok l => Some l
             | Err _ => None
             end
         | None => None
         end.
Proof.
  cbv zeta. intros Hrender Hsearch Hall.
  destruct (range_hits_ok _ ∅ Hall) as (leaders & Hr & Hlook).
  exists leaders. split.
  - unfold SearchPolicyLeaders. xrun_step. rewrite Hrender. xrun_step.
    rewrite Hsearch, Hr. done.
  - intros id. rewrite Hlook. by destruct (last_hit id _).
Qed.

(** X13.  The failures of [SearchPolicyLeaders].  An error of the rendering
    or of the search is returned with a nil map, and after a rendering error
    no search is made.  When a hit does not decode, the error is returned
    together with the map built from the hits before it: the earlier leases
    are in the result, the later hits are not visited. *)
Theorem SearchPolicyLeaders_failures (s : xstate X) (ids : list string) :
  let once := OncePrepareSearchPolicyLeaders in
  let render := TmplRenderOne FieldId ids in
  let s1 := xnext X once s in
  let s2 := xnext X render s1 in
  (forall e,
     xask X render s1 = Returned (Err e) ->
     xrun X (SearchPolicyLeaders ids) s =
       (Returned (None, Some e), s2,
        [XEv once (xask X once s); XEv render (Returned (Err e))]))
  /\
  (forall data e,
     xask X render s1 = Returned (Ok data) ->
     let search := BulkSearch [FleetPoliciesLeader] data in
     xask X search s2 = Err e ->
     xrun X (SearchPolicyLeaders ids) s =
       (Returned (None, Some e), xnext X search s2,
        [XEv once (xask X once s); XEv render (Returned (Ok data)); XEv search (Err e)]))
  /\
  (forall data res pre h post e,
     xask X render s1 = Returned (Ok data) ->
     let search := BulkSearch [FleetPoliciesLeader] data in
     xask X search s2 = Ok res ->
     hits_Hits (res_HitsT res) = pre ++ h :: post ->
     (forall h', h' ∈ pre ->
        exists l, json_Unmarshal_PolicyLeader (hit_Source h') = Ok l) ->
     json_Unmarshal_PolicyLeader (hit_Source h) = Err e ->
     exists leaders,
       (xrun X (SearchPolicyLeaders ids) s).1.1
         = Returned (Some leaders, Some (ErrJSON e))
       /\ range_hits pre ∅ = (leaders, None)).
Proof.
  cbv zeta. split; [| split].
  - intros e Hrender. unfold SearchPolicyLeaders. xrun_step. by rewrite Hrender.
  - intros data e Hrender Hsearch. unfold SearchPolicyLeaders. xrun_step.
    rewrite Hrender. xrun_step. by rewrite Hsearch.
  - intros data res pre h post e Hrender Hsearch Hhits Hpre Hh.
    destruct (range_hits_ok pre ∅ Hpre) as (leaders & Hr & _).
    exists leaders. split; [| done].
    unfold SearchPolicyLeaders. xrun_step. rewrite Hrender. xrun_step.
    rewrite Hsearch, Hhits, range_hits_app, Hr. cbn [range_hits]. by rewrite Hh.
Qed.

(** X14.  [SearchPolicyLeaders] only reads: whatever its collaborators
    answer, none of its calls is a call of the core, so none writes to the
    document store, and it makes at most one search. *)
Theorem SearchPolicyLeaders_read_only (s : xstate X) (ids : list string) :
  Forall (fun e : xevent =>
            match projT1 e with
            | Core _ => False
            | _ => True
            end)
         (xrun X (SearchPolicyLeaders ids) s).2
  /\ (xcount (fun c => match c with BulkSearch _ _ => true | _ => false end)
        (xrun X (SearchPolicyLeaders ids) s).2 <= 1)%nat.
Proof.
  split.
  - apply (xcalls_only_trace (fun c => match c with Core _ => False | _ => True end)).
    unfold SearchPolicyLeaders. cbn [xcalls_only xbind xcall_].
    split; [done |]. intros _. split; [done |].
    intros [[data | e] | msg]; [| done | done].
    cbn [xcalls_only xbind xcall_]. split; [done |]. intros [res | e]; [| done].
    by destruct (range_hits _ _).
  - unfold SearchPolicyLeaders, xcount. xrun_step.
    destruct (xask X (TmplRenderOne FieldId ids) _) as [[data | e] | msg];
      [| simpl; lia | simpl; lia].
    xrun_step.
    destruct (xask X (BulkSearch _ _) _) as [res | e]; [| simpl; lia].
    destruct (range_hits _ _). simpl. lia.
Qed.

End SearchTheorems.

(** Examples for the bucket and the search, on the reference decoders and
    collaborators. *)
Lemma Bucket_UnmarshalJSON_ok_example :
  exists b ags,
    Bucket_UnmarshalJSON RefX.reversed RefX.example_bucket = Ok b
    /\ bucket_Key b = "policy-1"
    /\ bucket_Aggregations b = Some ags
    /\ dom ags = {[ "top"; "late" ]}.
Proof.
  destruct (Bucket_UnmarshalJSON RefX.reversed RefX.example_bucket) as [b | e] eqn:Hb;
    [| by vm_compute in Hb].
  destruct (Bucket_UnmarshalJSON_ok RefX.reversed RefX.example_bucket b)
    as (b2 & aggs & H1 & H2 & Hk & _ & Ha & _).
  - intros m. apply reverse_Permutation.
  - exact Hb.
  - exists b, (omap aggregation_of (delete "doc_count" (delete "key" aggs))).
    split; [reflexivity |]. split; [| split; [exact Ha |]].
    + rewrite Hk.
      assert (Hkey : match json_Unmarshal__bucket RefX.example_bucket with
                     | Ok b2 => bucket_Key b2
                     | Err _ => ""
                     end = "policy-1") by (vm_compute; reflexivity).
      by rewrite H1 in Hkey.
    + assert (Hdom : match json_Unmarshal_map RefX.example_bucket with
                     | Ok aggs =>
                         dom (omap aggregation_of (delete "doc_count" (delete "key" aggs)))
                     | Err _ => ∅
                     end = ({[ "top"; "late" ]} : gset string)) by (vm_compute; reflexivity).
      by rewrite H2 in Hdom.
Defined.

Lemma Bucket_UnmarshalJSON_order_example :
  (exists b,
     Bucket_UnmarshalJSON map_to_list RefX.example_bucket = Ok b
     /\ Bucket_UnmarshalJSON RefX.reversed RefX.example_bucket = Ok b)
  /\ exists e, Bucket_UnmarshalJSON RefX.reversed RefX.example_bad_bucket = Err e.
Proof.
  assert (Hrev : forall m : gmap string value, RefX.reversed m ≡ₚ map_to_list m)
    by (intros m; apply reverse_Permutation).
  split.
  - destruct (Bucket_UnmarshalJSON map_to_list RefX.example_bucket) as [b | e] eqn:Hb;
      [| by vm_compute in Hb].
    exists b. split; [reflexivity |].
    by apply (Bucket_UnmarshalJSON_order map_to_list RefX.reversed RefX.example_bucket).
  - destruct (Bucket_UnmarshalJSON_order RefX.reversed map_to_list RefX.example_bad_bucket)
      as (_ & _ & Hfail); [exact Hrev | done |].
    eapply (Hfail _ _ "top"); [by vm_compute | by vm_compute | done | done
                              | by vm_compute | by vm_compute].
Defined.

Lemma SearchPolicyLeaders_found_example :
  exists leaders l,
    (xrun RefX.collaborators (SearchPolicyLeaders ["P"; "Q"])
       (RefX.over Ref.srvB_world)).1.1 = Returned (Some leaders, None)
    /\ leaders !! "P" = Some l
    /\ sm_Id <$> pl_Server l = Some "srvB"
    /\ leaders !! "Q" = None.
Proof.
  edestruct (SearchPolicyLeaders_found RefX.collaborators
               (RefX.over Ref.srvB_world) ["P"; "Q"]) as (leaders & Hrun & Hlook).
  - by vm_compute.
  - by vm_compute.
  - apply Forall_forall.
    match goal with
    | |- Forall ?P ?l => let l' := eval vm_compute in l in change (Forall P l')
    end.
    repeat constructor. cbv beta. eexists. vm_compute. reflexivity.
  - pose proof (Hlook "P") as HP. pose proof (Hlook "Q") as HQ.
    vm_compute in HP. vm_compute in HQ.
    eexists leaders, _. rewrite Hrun. split; [reflexivity |].
    split; [exact HP |]. split; [reflexivity | exact HQ].
Defined.

(* ------------------------------------------------------------------ *)
(** *** The HTTP route of the enrollment *)

Lemma xrun_xbind {A B : Type} (X : xhandler) (p : xprog A) (f : A -> xprog B)
    (s : xstate X) :
  xrun X (xbind p f) s =
  match xrun X p s with
  | (Returned a, s1, tr1) =>
      let '(o, s2, tr2) := xrun X (f a) s1 in (o, s2, tr1 ++ tr2)
  | (Panicked msg, s1, tr1) => (Panicked msg, s1, tr1)
  end.
Proof.
  revert s. induction p as [a | msg | c k IH]; intros s; cbn [xbind xrun].
  - by destruct (xrun X (f a) s) as [[o s2] tr2].
  - done.
  - destruct (xhandle X c s) as [a s1]. rewrite IH.
    destruct (xrun X (k a) s1) as [[[r | msg] s2] tr]; [| done].
    by destruct (xrun X (f r) s2) as [[o s3] tr3].
Qed.

(** A function of the core runs in a caller as it runs on its own. *)
Lemma xrun_lift {R : Type} (X : xhandler) (p : prog R) (s : xstate X) :
  xrun X (lift p) s =
  let '(o, s1, tr) := run (core_of X) p s in (o, s1, map core_event tr).
Proof.
  revert s. induction p as [r | msg | c k IH]; intros s; cbn [lift xrun run]; [done | done |].
  change (handle (core_of X) c s) with (xhandle X (Core c) s).
  destruct (xhandle X (Core c) s) as [a s1]. rewrite IH.
  by destruct (run (core_of X) (k a) s1) as [[o s2] tr].
Qed.

Lemma xcount_app (f : xcall -> bool) (tr1 tr2 : list xevent) :
  xcount f (tr1 ++ tr2) = (xcount f tr1 + xcount f tr2)%nat.
Proof. unfold xcount. by rewrite filter_app, length_app. Qed.

Lemma xcount_core (tr : list event) : xcount responds (map core_event tr) = 0%nat.
Proof.
  unfold xcount. induction tr as [| e tr IH]; [done |].
  cbn [map]. rewrite filter_cons_False; [exact IH |]. by destruct e.
Qed.

Section RouterTheorems.
Context `{RT : Runtime}.

Lemma handleEnroll_never_panics (r : Request) : never_panics (handleEnroll r).
Proof.
  unfold handleEnroll. cbn [bind call_ never_panics]. intros [t | e]; cbn [never_panics]; [| done].
  apply never_panics_defer; [by cbn | apply handleEnroll_admitted_never_panics].
Qed.

Variable X : xhandler.

Ltac drop_units :=
  repeat match goal with
         | |- context [xask X (Log ?l ?m) ?st] => destruct (xask X (Log l m) st)
         | |- context [xask X (CntEnrollBodyOutAdd ?n) ?st] =>
             destruct (xask X (CntEnrollBodyOutAdd n) st)
         end.

(** The run of the route, once the route parameter is ["enroll"], in terms
    of the run of the enroller. *)
Lemma Router_handleEnroll_run (s : xstate X) (r : Request) :
  let s1 := xnext X (Core TimeNow) s in
  exists res s2 tr tail,
    run (core_of X) (handleEnroll r) s1 = (Returned res, s2, tr)
    /\ (xrun X (Router_handleEnroll "enroll" r) s).1.1 = Returned tt
    /\ (xrun X (Router_handleEnroll "enroll" r) s).2 =
         XEv (Core TimeNow) (xask X (Core TimeNow) s) :: map core_event tr ++ tail
    /\ match res with
       | Ok data =>
           exists n werr now,
             xask X (ResponseWrite data) s2 = (n, werr)
             /\ tail = XEv (ResponseWrite data) (n, werr)
                       :: match werr with
                          | Some _ => [XEv (Log "error" "fail send enroll response") tt]
                          | None => []
                          end
                       ++ [XEv (CntEnrollBodyOutAdd (wrap_u64 n)) tt;
                           XEv (Core TimeNow) now;
                           XEv (Log "trace" "handleEnroll OK") tt]
       | Err err =>
           exists code str msg lvl now werr,
             xask X (CntEnrollIncError err) s2 = (code, str, msg, lvl)
             /\ tail = [XEv (CntEnrollIncError err) (code, str, msg, lvl);
                        XEv (Core TimeNow) now;
                        XEv (Log lvl "Enroll fail") tt;
                        XEv (WriteError code str msg) werr]
                       ++ match werr with
                          | Some _ => [XEv (Log "error" "fail writing error response") tt]
                          | None => []
                          end
       end.
Proof.
  cbv zeta. unfold Router_handleEnroll.
  rewrite xrun_xbind. cbn [xcall_ xrun]. rewrite xhandle_ask_next.
  rewrite decide_False by (intros Hne; by apply Hne).
  rewrite xrun_xbind, xrun_lift.
  destruct (never_panics_run (core_of X) (handleEnroll r) (xnext X (Core TimeNow) s)
              (handleEnroll_never_panics r)) as [res Hres].
  destruct (run (core_of X) (handleEnroll r) (xnext X (Core TimeNow) s))
    as [[o s2] tr] eqn:Hcore.
  cbn in Hres. subst o. exists res, s2, tr.
  destruct res as [data | err].
  - cbn [xbind xcall_ xrun]. rewrite (xhandle_ask_next X (ResponseWrite data)).
    destruct (xask X (ResponseWrite data) s2) as [n werr] eqn:Hw.
    destruct werr as [e |]; cbn [xbind xcall_ xrun];
      repeat (rewrite xhandle_ask_next; cbn [xbind xcall_ xrun]);
      drop_units;
      eexists; (split; [reflexivity |]); (split; [reflexivity |]);
      (split; [reflexivity |]); eexists _, _, _; split; reflexivity.
  - cbn [xbind xcall_ xrun]. rewrite (xhandle_ask_next X (CntEnrollIncError err)).
    destruct (xask X (CntEnrollIncError err) s2) as [[[code str] msg] lvl] eqn:Hc.
    cbn [xbind xcall_ xrun].
    repeat (rewrite xhandle_ask_next; cbn [xbind xcall_ xrun]).
    match goal with
    | |- context [xask X (WriteError code str msg) ?st] =>
        destruct (xask X (WriteError code str msg) st) as [e |] eqn:Hwe
    end;
      cbn [xbind xcall_ xrun];
      repeat (rewrite xhandle_ask_next; cbn [xbind xcall_ xrun]);
      drop_units;
      eexists; (split; [reflexivity |]); (split; [reflexivity |]);
      (split; [reflexivity |]);
      match type of Hwe with
      | _ = ?w => eexists _, _, _, _, _, w; split; reflexivity
      end.
Qed.

(** X15.  On a route parameter other than ["enroll"] the route answers 404
    with an empty body and does nothing else but read the clock: the
    enroller is not entered, so no limiter slot is taken and no collaborator
    of the enrollment is called. *)
Theorem Router_handleEnroll_wrong_route (s : xstate X) (id : string) (r : Request) :
  id <> "enroll" ->
  xrun X (Router_handleEnroll id r) s =
    (Returned tt,
     xnext X (HttpError "" 404) (xnext X (Core TimeNow) s),
     [XEv (Core TimeNow) (xask X (Core TimeNow) s); XEv (HttpError "" 404) tt]).
Proof.
  intros Hid. unfold Router_handleEnroll.
  rewrite xrun_xbind. cbn [xcall_ xrun]. rewrite xhandle_ask_next.
  rewrite decide_True by done.
  cbn [xbind xcall_ xrun]. rewrite xhandle_ask_next. unfold StatusNotFound.
  by destruct (xask X (HttpError "" 404) (xnext X (Core TimeNow) s)).
Qed.

(** X16.  Whatever the route parameter, the request and the answers of the
    collaborators, the route returns without a panic and sends exactly one
    response: one of [http.Error], [WriteError] and [w.Write] is called, once,
    also when the write of the response fails. *)
Theorem Router_handleEnroll_one_response (s : xstate X) (id : string) (r : Request) :
  (xrun X (Router_handleEnroll id r) s).1.1 = Returned tt
  /\ xcount responds (xrun X (Router_handleEnroll id r) s).2 = 1%nat.
Proof.
  destruct (decide (id = "enroll")) as [-> | Hid].
  - destruct (Router_handleEnroll_run s r) as (res & s2 & tr & tail & _ & Ho & Htr & Htail).
    split; [exact Ho |]. rewrite Htr.
    change (XEv (Core TimeNow) (xask X (Core TimeNow) s) :: map core_event tr ++ tail)
      with ([XEv (Core TimeNow) (xask X (Core TimeNow) s)] ++ map core_event tr ++ tail).
    rewrite !xcount_app, xcount_core.
    destruct res as [data | err].
    + destruct Htail as (n & [e |] & now & _ & ->); reflexivity.
    + destruct Htail as (code & str & msg & lvl & now & [e |] & _ & ->); reflexivity.
  - unfold Router_handleEnroll.
    rewrite xrun_xbind. cbn [xcall_ xrun]. rewrite xhandle_ask_next.
    rewrite decide_True by done.
    cbn [xbind xcall_ xrun]. rewrite xhandle_ask_next.
    by destruct (xask X (HttpError "" StatusNotFound) (xnext X (Core TimeNow) s)).
Qed.

(** X17.  What the route sends is what the enroller returned.  When the
    enroller returns bytes, those bytes are written as they are, the number
    that [w.Write] reports is added to the outgoing-bytes counter (as a
    [uint64]) even when the write reports an error, and the error counter is
    not touched.  When the enroller returns an error, the error counter
    classifies that error, the failure is logged at the level the counter
    gave and [WriteError] is called with the counter's code, category and
    message; nothing is written as a body and the outgoing-bytes counter is
    not touched. *)
Theorem Router_handleEnroll_reply (s : xstate X) (r : Request) :
  let core := run (core_of X) (handleEnroll r) (xnext X (Core TimeNow) s) in
  let tr := (xrun X (Router_handleEnroll "enroll" r) s).2 in
  (forall data,
     outcome_of core = Returned (Ok data) ->
     exists n werr,
       xask X (ResponseWrite data) core.1.2 = (n, werr)
       /\ XEv (ResponseWrite data) (n, werr) ∈ tr
       /\ XEv (CntEnrollBodyOutAdd (wrap_u64 n)) tt ∈ tr
       /\ Forall (fun e => match projT1 e with
                           | CntEnrollIncError _ | WriteError _ _ _ | HttpError _ _ => False
                           | _ => True
                           end) tr)
  /\
  (forall err,
     outcome_of core = Returned (Err err) ->
     exists code str msg lvl werr,
       xask X (CntEnrollIncError err) core.1.2 = (code, str, msg, lvl)
       /\ XEv (CntEnrollIncError err) (code, str, msg, lvl) ∈ tr
       /\ XEv (Log lvl "Enroll fail") tt ∈ tr
       /\ XEv (WriteError code str msg) werr ∈ tr
       /\ Forall (fun e => match projT1 e with
                           | ResponseWrite _ | CntEnrollBodyOutAdd _ | HttpError _ _ => False
                           | _ => True
                           end) tr).
Proof.
  cbv zeta.
  destruct (Router_handleEnroll_run s r) as (res & s2 & tr & tail & Hcore & _ & Htr & Htail).
  rewrite Hcore, Htr. cbn [outcome_of fst snd].
  assert (Hcoreev : forall P : xcall -> Prop,
            (forall c, P (Core c)) -> Forall (fun e => P (projT1 e)) (map core_event tr)).
  { intros P HP. apply Forall_map, Forall_forall. intros e _. apply HP. }
  split.
  - intros data [= ->]. destruct Htail as (n & werr & now & Hw & ->).
    exists n, werr. split; [exact Hw |].
    split; [| split].
    + apply list_elem_of_further, elem_of_app. right. apply list_elem_of_here.
    + apply list_elem_of_further, elem_of_app. right. apply list_elem_of_further.
      apply elem_of_app. right. apply list_elem_of_here.
    + apply Forall_cons. split; [done |]. apply Forall_app. split.
      * by apply (Hcoreev (fun c => match c with
                                   | CntEnrollIncError _ | WriteError _ _ _ | HttpError _ _ => False
                                   | _ => True
                                   end)).
      * destruct werr; repeat constructor.
  - intros err [= ->]. destruct Htail as (code & str & msg & lvl & now & werr & Hc & ->).
    exists code, str, msg, lvl, werr. split; [exact Hc |].
    split; [| split; [| split]].
    + apply list_elem_of_further, elem_of_app. right. apply list_elem_of_here.
    + apply list_elem_of_further, elem_of_app. right.
      do 2 apply list_elem_of_further. apply list_elem_of_here.
    + apply list_elem_of_further, elem_of_app. right.
      do 3 apply list_elem_of_further. apply list_elem_of_here.
    + apply Forall_cons. split; [done |]. apply Forall_app. split.
      * by apply (Hcoreev (fun c => match c with
                                   | ResponseWrite _ | CntEnrollBodyOutAdd _ | HttpError _ _ => False
                                   | _ => True
                                   end)).
      * destruct werr; repeat constructor.
Qed.

(** X18.  The response is sent after the enroller has returned: the calls of
    the route are the reading of the clock, then every call of the enroller
    (among them the release of the limiter slot and the end of the counted
    section), then the calls that send the response, among which the only
    call on a collaborator of the enroller is the reading of the clock. *)
Theorem Router_handleEnroll_responds_last (s : xstate X) (r : Request) :
  let core := run (core_of X) (handleEnroll r) (xnext X (Core TimeNow) s) in
  exists tail,
    (xrun X (Router_handleEnroll "enroll" r) s).2 =
      XEv (Core TimeNow) (xask X (Core TimeNow) s)
      :: map core_event (trace_of core) ++ tail
    /\ xcount responds (map core_event (trace_of core)) = 0%nat
    /\ xcount responds tail = 1%nat
    /\ Forall (fun e => forall c, projT1 e = Core c -> c = TimeNow) tail.
Proof.
  cbv zeta.
  destruct (Router_handleEnroll_run s r) as (res & s2 & tr & tail & Hcore & _ & Htr & Htail).
  rewrite Hcore, Htr. cbn [trace_of snd]. exists tail.
  split; [reflexivity |]. split; [apply xcount_core |].
  destruct res as [data | err].
  - destruct Htail as (n & [e |] & now & _ & ->);
      (split; [reflexivity |]); repeat constructor; cbn; congruence.
  - destruct Htail as (code & str & msg & lvl & now & [e |] & _ & ->);
      (split; [reflexivity |]); repeat constructor; cbn; congruence.
Qed.

End RouterTheorems.

Lemma Router_handleEnroll_wrong_route_example :
  RefX.outbox
    (xrun RefX.collaborators (Router_handleEnroll "status" Ref.example_request)
       (RefX.over Ref.enroll_world)).1.2 = [RefX.SentError "" 404]
  /\ Ref.docs (RefX.core
       (xrun RefX.collaborators (Router_handleEnroll "status" Ref.example_request)
          (RefX.over Ref.enroll_world)).1.2) = Ref.docs Ref.enroll_world.
Proof.
  rewrite (Router_handleEnroll_wrong_route RefX.collaborators
             (RefX.over Ref.enroll_world) "status" Ref.example_request); [| done].
  split; reflexivity.
Defined.

(* ------------------------------------------------------------------ *)
(** *** The names of the credentials *)

Section CredentialNames.
Context `{RT : Runtime}.

(** X19.  For agents whose id is the text of a sixteen-byte UUID, as
    [_enroll] mints them, the name under which [generateOutputApiKey] asks
    for a credential determines the agent and the output, and it is never the
    name under which [generateAccessApiKey] asks for the access credential of
    an agent with such an id. *)
Theorem generateOutputApiKey_names (u1 u2 : UUID) (o1 o2 : string) (roles1 roles2 : bytes) :
  length u1 = 16%nat -> length u2 = 16%nat ->
  (requested_name (generateOutputApiKey (uuid_String u1) o1 roles1) =
   requested_name (generateOutputApiKey (uuid_String u2) o2 roles2) ->
   uuid_String u1 = uuid_String u2 /\ o1 = o2)
  /\ requested_name (generateOutputApiKey (uuid_String u1) o1 roles1) <>
     requested_name (generateAccessApiKey (uuid_String u2)).
Proof.
  intros H1 H2. cbn [requested_name generateOutputApiKey generateAccessApiKey call_].
  unfold output_key_name. split.
  - intros [= Heq].
    apply string_app_inj in Heq as [Hu Ho];
      [| by rewrite !length_uuid_String].
    split; [exact Hu |]. by injection Ho.
  - intros [= Heq]. apply (f_equal String.length) in Heq.
    rewrite !string_length_app, !length_uuid_String in Heq by done.
    cbn in Heq. lia.
Qed.

End CredentialNames.

Lemma generateOutputApiKey_names_example :
  requested_name (generateOutputApiKey (uuid_String Ref.example_uuid) "default" []) <>
  requested_name (generateAccessApiKey (uuid_String Ref.example_uuid))
  /\ output_key_name "a:b" "c" = output_key_name "a" "b:c".
Proof.
  split; [| reflexivity].
  apply (generateOutputApiKey_names Ref.example_uuid Ref.example_uuid "default" "default" [] []);
    reflexivity.
Defined.
